(** * Vulmap SDK core: a shallow embedding and its checked properties

    The development follows the Go sources package by package:

    - [contextargs]: [pkg/protocols/common/contextargs/contextargs.go], the
      per-execution [Context] (target, cookie jar, key-value store);
    - [vulmap]: the SDK engine ([VulmapEngine.init], [applyRequiredDefaults],
      [createEphemeralObjects], [ExecuteVulmapWithOpts]);
    - [ldap]: the LDAP helper of the JavaScript layer ([LdapClient]);
    - [structs]: [pkg/js/libs/structs/structs.go], the format strings of
      [Pack] and [Unpack].

    Go pointers are locations of an explicit store, so that aliasing (two
    [Context]s holding the same [*cookiejar.Jar]) is visible in the model. *)

From stdpp Require Import gmap strings list fin_maps.
From Stdlib Require Import ZArith Lia Ascii DecimalString.

Local Open Scope Z_scope.
Local Set Warnings "-register-all".

(** ** Package contextargs *)
Module contextargs.

(** Go values of static type [interface{}], as far as [Context.Add]
    distinguishes them by its type switch: [string], [[]string], and
    everything else.  A slice is modelled by its contents; sharing of
    backing arrays between stored slices is not modelled. *)
Inductive Value :=
  | VNil
  | VString (s : string)
  | VStrings (l : list string)
  | VInt (z : Z)
  | VBool (b : bool)
  | VSlice (l : list Value).

(** [mapsutil.SyncLockMap[string, interface{}]], from the [utils] library:
    the two fields that [NewWithInput] initialises. *)
Record SyncLockMap := mkSyncLockMap {
  Map : gmap string Value;
  ReadOnly : bool
}.

(** The methods of [SyncLockMap] that [Context] calls, as the library
    documents them.  A map marked read-only rejects writes with
    [ErrReadOnly]; the boolean result is [true] when the write was
    rejected, and [Context] discards it.  [Get] on a missing key returns the
    zero value and [false]; [Clone] returns a new map with the same
    entries. *)
Definition SyncLockMap_Set (k : string) (v : Value) (s : SyncLockMap)
  : SyncLockMap * bool :=
  if ReadOnly s then (s, true)
  else (mkSyncLockMap (<[k := v]> (Map s)) (ReadOnly s), false).

Definition SyncLockMap_Merge (n : gmap string Value) (s : SyncLockMap)
  : SyncLockMap * bool :=
  if ReadOnly s then (s, true)
  else (mkSyncLockMap (n ∪ Map s) (ReadOnly s), false).

Definition SyncLockMap_Get (k : string) (s : SyncLockMap) : Value * bool :=
  match Map s !! k with
  | Some v => (v, true)
  | None => (VNil, false)
  end.

Definition SyncLockMap_Has (k : string) (s : SyncLockMap) : bool :=
  bool_decide (is_Some (Map s !! k)).

Definition SyncLockMap_IsEmpty (s : SyncLockMap) : bool :=
  bool_decide (Map s = ∅).

Definition SyncLockMap_Clone (s : SyncLockMap) : SyncLockMap :=
  mkSyncLockMap (Map s) (ReadOnly s).

(** Modelled from the spec: the declaration of [MetaInput] is missing; the
    spec gives a target an [input] and an optional [CustomIP]. *)
Record MetaInput := mkMetaInput {
  Input : string;
  CustomIP : string
}.

(** Modelled from the spec: [MetaInput.Clone] is missing; a target is
    cloneable, field by field. *)
Definition MetaInput_Clone (m : MetaInput) : MetaInput :=
  mkMetaInput (Input m) (CustomIP m).

(** [net/http/cookiejar.Jar], of Go's standard library, reduced to what a
    writer and a reader of a jar observe: cookies (name to value) stored
    per host. *)
Definition Jar := gmap string (gmap string string).

Record Cookie := mkCookie { Name : string; CookieValue : string }.

Definition Jar_SetCookies (host : string) (cs : list Cookie) (j : Jar) : Jar :=
  <[host := foldl (λ m c, <[Name c := CookieValue c]> m)
              (default ∅ (j !! host)) cs]> j.

Definition Jar_Cookies (host : string) (j : Jar) : gmap string string :=
  default ∅ (j !! host).

(** *** The store

    Every [&T{...}] allocates a fresh location.  A [Context] holds three
    pointers. *)
Definition loc := positive.

Record Store := mkStore {
  metas : gmap loc MetaInput;
  jars : gmap loc Jar;
  maps : gmap loc SyncLockMap
}.

Definition emptyStore : Store := mkStore ∅ ∅ ∅.

Record Context := mkContext {
  ctxMetaInput : loc;
  CookieJar : loc;
  args : loc
}.

(** Store-passing computations; [None] is a nil-pointer dereference. *)
Definition M (A : Type) : Type := Store → option (A * Store).

Definition ret {A} (a : A) : M A := λ h, Some (a, h).

Definition bind {A B} (m : M A) (k : A → M B) : M B :=
  λ h, match m h with
       | Some (a, h') => k a h'
       | None => None
       end.

Notation "'let*' x ':=' m 'in' k" := (bind m (λ x, k))
  (at level 10, x pattern, m at level 100, k at level 200).
Notation "m ';;;' k" := (bind m (λ _, k))
  (at level 100, k at level 200, right associativity).

(** The result of running a computation, without the final store. *)
Definition eval {A} (m : M A) (h : Store) : option A := fst <$> m h.

Definition newMeta (m : MetaInput) : M loc := λ h,
  let l := fresh (dom (metas h)) in
  Some (l, mkStore (<[l := m]> (metas h)) (jars h) (maps h)).

Definition newJar (j : Jar) : M loc := λ h,
  let l := fresh (dom (jars h)) in
  Some (l, mkStore (metas h) (<[l := j]> (jars h)) (maps h)).

Definition newMap (s : SyncLockMap) : M loc := λ h,
  let l := fresh (dom (maps h)) in
  Some (l, mkStore (metas h) (jars h) (<[l := s]> (maps h))).

Definition loadMeta (l : loc) : M MetaInput := λ h,
  m ← metas h !! l; Some (m, h).

Definition loadJar (l : loc) : M Jar := λ h,
  j ← jars h !! l; Some (j, h).

Definition storeJar (l : loc) (j : Jar) : M unit := λ h,
  _ ← jars h !! l; Some (tt, mkStore (metas h) (<[l := j]> (jars h)) (maps h)).

Definition loadMap (l : loc) : M SyncLockMap := λ h,
  s ← maps h !! l; Some (s, h).

Definition storeMap (l : loc) (s : SyncLockMap) : M unit := λ h,
  _ ← maps h !! l; Some (tt, mkStore (metas h) (jars h) (<[l := s]> (maps h))).

(** [jar.SetCookies(u, cookies)] and [jar.Cookies(u)] through a pointer. *)
Definition SetCookies (j : loc) (host : string) (cs : list Cookie) : M unit :=
  let* jar := loadJar j in storeJar j (Jar_SetCookies host cs jar).

Definition Cookies (j : loc) (host : string) : M (gmap string string) :=
  let* jar := loadJar j in ret (Jar_Cookies host jar).

(** *** The methods of [Context] *)

Definition NewWithInput (input : string) : M Context :=
  let* jar := newJar ∅ in
  let* mi := newMeta (mkMetaInput input EmptyString) in
  let* a := newMap (mkSyncLockMap ∅ false) in
  ret (mkContext mi jar a).

Definition New : M Context := NewWithInput EmptyString.

Definition Set_ (ctx : Context) (key : string) (value : Value) : M unit :=
  let* s := loadMap (args ctx) in
  storeMap (args ctx) (fst (SyncLockMap_Set key value s)).

Definition hasArgs (ctx : Context) : M bool :=
  let* s := loadMap (args ctx) in ret (negb (SyncLockMap_IsEmpty s)).

Definition Merge (ctx : Context) (n : gmap string Value) : M unit :=
  let* s := loadMap (args ctx) in
  storeMap (args ctx) (fst (SyncLockMap_Merge n s)).

Definition Get (ctx : Context) (key : string) : M (Value * bool) :=
  let* b := hasArgs ctx in
  if negb b then ret (VNil, false)
  else let* s := loadMap (args ctx) in ret (SyncLockMap_Get key s).

(** [append(values, v...)] is modelled by the list it returns.  When the
    stored slice has spare capacity, the source also writes into its
    backing array, which another stored slice may share; that write is not
    modelled. *)
Definition Add (ctx : Context) (key : string) (v : Value) : M unit :=
  let* s := loadMap (args ctx) in
  let '(values, ok) := SyncLockMap_Get key s in
  (if negb ok then Set_ ctx key v else ret tt) ;;;
  match v with
  | VStrings vs =>
      match values with
      | VStrings old => Set_ ctx key (VStrings (old ++ vs))
      | _ => ret tt
      end
  | VString sv =>
      match values with
      | VString old => Set_ ctx key (VStrings [old; sv])
      | _ => ret tt
      end
  | _ =>
      let* r := Get ctx key in
      Set_ ctx key (VSlice [fst r; v])
  end.

Definition GetAll (ctx : Context) : M (option (gmap string Value)) :=
  let* b := hasArgs ctx in
  if negb b then ret None
  else let* s := loadMap (args ctx) in ret (Some (Map (SyncLockMap_Clone s))).

Definition Has (ctx : Context) (key : string) : M bool :=
  let* b := hasArgs ctx in
  if b then let* s := loadMap (args ctx) in ret (SyncLockMap_Has key s)
  else ret false.

Definition HasArgs (ctx : Context) : M bool :=
  let* s := loadMap (args ctx) in ret (negb (SyncLockMap_IsEmpty s)).

Definition Clone (ctx : Context) : M Context :=
  let* m := loadMeta (ctxMetaInput ctx) in
  let* mi := newMeta (MetaInput_Clone m) in
  let* s := loadMap (args ctx) in
  let* a := newMap (SyncLockMap_Clone s) in
  ret (mkContext mi (CookieJar ctx) a).

(** A [Context] is live in a store when its three pointers are allocated
    and its key-value store is writable.  [contextargs] never marks the map
    read-only, so every [Context] built by [NewWithInput] and [Clone] is. *)
Definition live (h : Store) (ctx : Context) : bool :=
  match metas h !! ctxMetaInput ctx, jars h !! CookieJar ctx, maps h !! args ctx with
  | Some _, Some _, Some s => negb (ReadOnly s)
  | _, _, _ => false
  end.

(** Sequences of writes to one [Context], and the keys they name. *)
Inductive Op :=
  | OpSet (k : string) (v : Value)
  | OpAdd (k : string) (v : Value)
  | OpMerge (n : gmap string Value).

Definition writes (k : string) (op : Op) : bool :=
  match op with
  | OpSet k' _ | OpAdd k' _ => bool_decide (k' = k)
  | OpMerge n => bool_decide (is_Some (n !! k))
  end.

Definition apply_op (ctx : Context) (op : Op) : M unit :=
  match op with
  | OpSet k v => Set_ ctx k v
  | OpAdd k v => Add ctx k v
  | OpMerge n => Merge ctx n
  end.

Fixpoint run_ops (ctx : Context) (ops : list Op) : M unit :=
  match ops with
  | [] => ret tt
  | op :: ops' => apply_op ctx op ;;; run_ops ctx ops'
  end.

(** The store after a write to the map behind [l]. *)
Definition updMap (h : Store) (l : loc) (s : SyncLockMap) : Store :=
  mkStore (metas h) (jars h) (<[l := s]> (maps h)).

(** What [Add] leaves in the map, as a function of what it finds. *)
Definition Add_result (key : string) (v : Value) (s : SyncLockMap) : SyncLockMap :=
  let '(values, ok) := SyncLockMap_Get key s in
  let s1 := if negb ok then fst (SyncLockMap_Set key v s) else s in
  match v with
  | VStrings vs =>
      match values with
      | VStrings old => fst (SyncLockMap_Set key (VStrings (old ++ vs)) s1)
      | _ => s1
      end
  | VString sv =>
      match values with
      | VString old => fst (SyncLockMap_Set key (VStrings [old; sv]) s1)
      | _ => s1
      end
  | _ => fst (SyncLockMap_Set key (VSlice [fst (SyncLockMap_Get key s1); v]) s1)
  end.

(** The values for which [Add] takes one of its two typed cases. *)
Definition is_stringy (v : Value) : bool :=
  match v with VString _ | VStrings _ => true | _ => false end.

(** A context for [https://example.com] in an empty store, and its clone. *)
Definition demoCtx : Context := mkContext 1%positive 1%positive 1%positive.

Definition demoStore : Store :=
  mkStore {[1%positive := mkMetaInput "https://example.com" EmptyString]}
          {[1%positive := ∅]}
          {[1%positive := mkSyncLockMap ∅ false]}.

Definition demoClone : Context := mkContext 2%positive 1%positive 2%positive.

Definition demoStore1 : Store :=
  mkStore (<[2%positive := mkMetaInput "https://example.com" EmptyString]>
             (metas demoStore))
          (jars demoStore)
          (<[2%positive := mkSyncLockMap ∅ false]> (maps demoStore)).

(** The clone stores a cookie; the original reads its jar before and
    after. *)
Definition shared_jar_scenario : M (option string * option string) :=
  let* c := NewWithInput "https://example.com" in
  let* c' := Clone c in
  let* before := Cookies (CookieJar c) "example.com" in
  SetCookies (CookieJar c') "example.com" [mkCookie "sid" "1"] ;;;
  let* after := Cookies (CookieJar c) "example.com" in
  ret (before !! "sid", after !! "sid").

(** [Add] of an [int] under a key that is not there. *)
Definition add_fresh_scenario : M (bool * (Value * bool)) :=
  let* c := NewWithInput "https://example.com" in
  let* has := Has c "port" in
  Add c "port" (VInt 443) ;;;
  let* r := Get c "port" in
  ret (has, r).

End contextargs.

(** Opaque Go objects (function values, clients of external services) are
    named by a handle. *)
Definition handle := nat.

(** Go's [error] values that the SDK returns. *)
Inductive error :=
  | ErrNoTemplatesAvailable
  | ErrNoTargetsAvailable
  | ErrHostDenied (host : string)
  | errorutil_New (msg : string) (cause : error)
  | Err (msg : string).

(** [int] and [uint] are 64 bits wide. *)
Definition int_range (z : Z) : bool := (- 2 ^ 63 <=? z) && (z <? 2 ^ 63).
Definition uint (z : Z) : Z := z mod 2 ^ 64.

(** ** Package time *)
Module time.
Definition Duration := Z.
Definition Second : Duration := 1000000000.
Definition Minute : Duration := 60 * Second.
End time.

(** ** Package types: the fields of [types.Options] that the SDK reads *)
Module types.

Record Options := mkOptions {
  Verbose : bool;
  Debug : bool;
  Silent : bool;
  ProxyInternal : bool;
  StatsInterval : Z;
  StatsJSON : bool;
  MetricsPort : Z;
  RateLimit : Z;
  RateLimitMinute : Z;
  ExcludeTags : list string
}.

Definition set_ExcludeTags (v : list string) (x : Options) : Options :=
  mkOptions (Verbose x) (Debug x) (Silent x) (ProxyInternal x)
    (StatsInterval x) (StatsJSON x) (MetricsPort x) (RateLimit x)
    (RateLimitMinute x) v.

Inductive ResumeCfg := NewResumeCfg.
End types.

(** ** Package ratelimit

    A limiter is the constructor call that made it:
    [ratelimit.New(ctx, count, duration)] or [ratelimit.NewUnlimited(ctx)]. *)
Module ratelimit.
Inductive Limiter :=
  | New (count : Z) (duration : time.Duration)
  | NewUnlimited.
End ratelimit.

(** ** Package hosterrorscache

    A cache is the arguments of [hosterrorscache.New] that made it: the
    error threshold, the maximum number of hosts, the errors to track. *)
Module hosterrorscache.
Record Cache := New {
  MaxHostError : Z;
  maxHostsCount : Z;
  TrackError : list string
}.

(** Modelled from the spec: the constant [DefaultMaxHostsCount] is declared
    in [hosterrorscache], whose source is not part of this development; the
    spec gives the default bound of tracked hosts as 10,000. *)
Definition DefaultMaxHostsCount : Z := 10000.
End hosterrorscache.

(** ** Package config: what [config.ReadIgnoreFile] returns *)
Module config.
Record IgnoreFile := mkIgnoreFile {
  Tags : list string;
  Files : list string
}.
End config.

(** ** Packages output and progress: the mock writer and progress client
    that the SDK installs by default ([testutils]), or objects supplied by
    the caller. *)
Module output.
Inductive Writer :=
  | MockOutputWriter (FailureCallback : option handle)
  | UserWriter (w : handle).
End output.

Module progress.
Inductive Progress :=
  | MockProgressClient
  | StatsTicker (p : handle)
  | UserProgress (p : handle).
End progress.

Module disk.
Inductive Catalog := NewCatalog (directory : string).
End disk.

Module aurora.
Inductive Aurora := NewAurora (colors : bool).
End aurora.

(** ** Package interactsh: the fields of [interactsh.Options] that [init]
    assigns *)
Module interactsh.

Record Options := mkOptions {
  Output : option output.Writer;
  IssuesClient : option handle;
  Progress : option progress.Progress;
  HTTPClient : option handle
}.

Definition set_Output (v : option output.Writer) (x : Options) : Options :=
  mkOptions v (IssuesClient x) (Progress x) (HTTPClient x).

Definition set_IssuesClient (v : option handle) (x : Options) : Options :=
  mkOptions (Output x) v (Progress x) (HTTPClient x).

Definition set_Progress (v : option progress.Progress) (x : Options)
  : Options :=
  mkOptions (Output x) (IssuesClient x) v (HTTPClient x).

Definition set_HTTPClient (v : option handle) (x : Options) : Options :=
  mkOptions (Output x) (IssuesClient x) (Progress x) v.

End interactsh.

(** ** Package protocols *)
Module protocols.

Record ExecutorOptions := mkExecutorOptions {
  Output : option output.Writer;
  Options : types.Options;
  Progress : option progress.Progress;
  Catalog : option disk.Catalog;
  IssuesClient : option handle;
  RateLimiter : option ratelimit.Limiter;
  Interactsh : option handle;
  HostErrorsCache : option hosterrorscache.Cache;
  Colorizer : option aurora.Aurora;
  ResumeCfg : option types.ResumeCfg;
  Browser : option handle;
  WorkflowLoader : option handle
}.

Definition set_RateLimiter (v : option ratelimit.Limiter) (x : ExecutorOptions)
  : ExecutorOptions :=
  mkExecutorOptions (Output x) (Options x) (Progress x) (Catalog x)
    (IssuesClient x) v (Interactsh x) (HostErrorsCache x) (Colorizer x)
    (ResumeCfg x) (Browser x) (WorkflowLoader x).

Definition set_WorkflowLoader (v : option handle) (x : ExecutorOptions)
  : ExecutorOptions :=
  mkExecutorOptions (Output x) (Options x) (Progress x) (Catalog x)
    (IssuesClient x) (RateLimiter x) (Interactsh x) (HostErrorsCache x)
    (Colorizer x) (ResumeCfg x) (Browser x) v.

End protocols.

(** ** Package core

    An engine is what [core.New] and [SetExecuterOptions] were given. *)
Module core.
Record Engine := mkEngine {
  options : types.Options;
  executerOpts : option protocols.ExecutorOptions
}.

Definition New (o : types.Options) : Engine := mkEngine o None.

Definition SetExecuterOptions (x : protocols.ExecutorOptions) (e : Engine) : Engine :=
  mkEngine (options e) (Some x).
End core.

(** ** Package inputs: the field of [SimpleInputProvider] that the SDK
    initialises *)
Module inputs.
Record SimpleInputProvider := mkSimpleInputProvider {
  Inputs : list contextargs.MetaInput
}.
End inputs.

(** ** Package vulmap: the SDK *)
Module vulmap.

Inductive engineMode := singleInstance | threadSafe.

Record VulmapEngine := mkVulmapEngine {
  opts : types.Options;
  mode : engineMode;
  customWriter : option output.Writer;
  customProgress : option progress.Progress;
  hostErrCache : option hosterrorscache.Cache;
  interactshOpts : option interactsh.Options;
  rateLimiter : option ratelimit.Limiter;
  rc : option handle;
  resultCallbacks : list (option handle);
  onFailureCallback : option handle;
  onUpdateAvailableCallback : option handle;
  enableStats : bool;
  httpClient : option handle;
  httpxClient : option handle;
  interactshClient : option handle;
  catalog : option disk.Catalog;
  browserInstance : option handle;
  inputProvider : option inputs.SimpleInputProvider;
  executerOpts : protocols.ExecutorOptions;
  engine : option core.Engine
}.

Definition set_opts (v : types.Options) (x : VulmapEngine) : VulmapEngine :=
  mkVulmapEngine v (mode x) (customWriter x) (customProgress x)
    (hostErrCache x) (interactshOpts x) (rateLimiter x) (rc x)
    (resultCallbacks x) (onFailureCallback x) (onUpdateAvailableCallback x)
    (enableStats x) (httpClient x) (httpxClient x) (interactshClient x)
    (catalog x) (browserInstance x) (inputProvider x) (executerOpts x)
    (engine x).

Definition set_customWriter (v : option output.Writer) (x : VulmapEngine)
  : VulmapEngine :=
  mkVulmapEngine (opts x) (mode x) v (customProgress x) (hostErrCache x)
    (interactshOpts x) (rateLimiter x) (rc x) (resultCallbacks x)
    (onFailureCallback x) (onUpdateAvailableCallback x) (enableStats x)
    (httpClient x) (httpxClient x) (interactshClient x) (catalog x)
    (browserInstance x) (inputProvider x) (executerOpts x) (engine x).

Definition set_customProgress (v : option progress.Progress) (x : VulmapEngine)
  : VulmapEngine :=
  mkVulmapEngine (opts x) (mode x) (customWriter x) v (hostErrCache x)
    (interactshOpts x) (rateLimiter x) (rc x) (resultCallbacks x)
    (onFailureCallback x) (onUpdateAvailableCallback x) (enableStats x)
    (httpClient x) (httpxClient x) (interactshClient x) (catalog x)
    (browserInstance x) (inputProvider x) (executerOpts x) (engine x).

Definition set_hostErrCache (v : option hosterrorscache.Cache) (x : VulmapEngine)
  : VulmapEngine :=
  mkVulmapEngine (opts x) (mode x) (customWriter x) (customProgress x) v
    (interactshOpts x) (rateLimiter x) (rc x) (resultCallbacks x)
    (onFailureCallback x) (onUpdateAvailableCallback x) (enableStats x)
    (httpClient x) (httpxClient x) (interactshClient x) (catalog x)
    (browserInstance x) (inputProvider x) (executerOpts x) (engine x).

Definition set_interactshOpts (v : option interactsh.Options) (x : VulmapEngine)
  : VulmapEngine :=
  mkVulmapEngine (opts x) (mode x) (customWriter x) (customProgress x)
    (hostErrCache x) v (rateLimiter x) (rc x) (resultCallbacks x)
    (onFailureCallback x) (onUpdateAvailableCallback x) (enableStats x)
    (httpClient x) (httpxClient x) (interactshClient x) (catalog x)
    (browserInstance x) (inputProvider x) (executerOpts x) (engine x).

Definition set_rateLimiter (v : option ratelimit.Limiter) (x : VulmapEngine)
  : VulmapEngine :=
  mkVulmapEngine (opts x) (mode x) (customWriter x) (customProgress x)
    (hostErrCache x) (interactshOpts x) v (rc x) (resultCallbacks x)
    (onFailureCallback x) (onUpdateAvailableCallback x) (enableStats x)
    (httpClient x) (httpxClient x) (interactshClient x) (catalog x)
    (browserInstance x) (inputProvider x) (executerOpts x) (engine x).

Definition set_rc (v : option handle) (x : VulmapEngine) : VulmapEngine :=
  mkVulmapEngine (opts x) (mode x) (customWriter x) (customProgress x)
    (hostErrCache x) (interactshOpts x) (rateLimiter x) v (resultCallbacks
    x) (onFailureCallback x) (onUpdateAvailableCallback x) (enableStats x)
    (httpClient x) (httpxClient x) (interactshClient x) (catalog x)
    (browserInstance x) (inputProvider x) (executerOpts x) (engine x).

Definition set_httpClient (v : option handle) (x : VulmapEngine)
  : VulmapEngine :=
  mkVulmapEngine (opts x) (mode x) (customWriter x) (customProgress x)
    (hostErrCache x) (interactshOpts x) (rateLimiter x) (rc x)
    (resultCallbacks x) (onFailureCallback x) (onUpdateAvailableCallback x)
    (enableStats x) v (httpxClient x) (interactshClient x) (catalog x)
    (browserInstance x) (inputProvider x) (executerOpts x) (engine x).

Definition set_httpxClient (v : option handle) (x : VulmapEngine)
  : VulmapEngine :=
  mkVulmapEngine (opts x) (mode x) (customWriter x) (customProgress x)
    (hostErrCache x) (interactshOpts x) (rateLimiter x) (rc x)
    (resultCallbacks x) (onFailureCallback x) (onUpdateAvailableCallback x)
    (enableStats x) (httpClient x) v (interactshClient x) (catalog x)
    (browserInstance x) (inputProvider x) (executerOpts x) (engine x).

Definition set_interactshClient (v : option handle) (x : VulmapEngine)
  : VulmapEngine :=
  mkVulmapEngine (opts x) (mode x) (customWriter x) (customProgress x)
    (hostErrCache x) (interactshOpts x) (rateLimiter x) (rc x)
    (resultCallbacks x) (onFailureCallback x) (onUpdateAvailableCallback x)
    (enableStats x) (httpClient x) (httpxClient x) v (catalog x)
    (browserInstance x) (inputProvider x) (executerOpts x) (engine x).

Definition set_catalog (v : option disk.Catalog) (x : VulmapEngine)
  : VulmapEngine :=
  mkVulmapEngine (opts x) (mode x) (customWriter x) (customProgress x)
    (hostErrCache x) (interactshOpts x) (rateLimiter x) (rc x)
    (resultCallbacks x) (onFailureCallback x) (onUpdateAvailableCallback x)
    (enableStats x) (httpClient x) (httpxClient x) (interactshClient x) v
    (browserInstance x) (inputProvider x) (executerOpts x) (engine x).

Definition set_inputProvider (v : option inputs.SimpleInputProvider) (x : VulmapEngine)
  : VulmapEngine :=
  mkVulmapEngine (opts x) (mode x) (customWriter x) (customProgress x)
    (hostErrCache x) (interactshOpts x) (rateLimiter x) (rc x)
    (resultCallbacks x) (onFailureCallback x) (onUpdateAvailableCallback x)
    (enableStats x) (httpClient x) (httpxClient x) (interactshClient x)
    (catalog x) (browserInstance x) v (executerOpts x) (engine x).

Definition set_executerOpts (v : protocols.ExecutorOptions) (x : VulmapEngine)
  : VulmapEngine :=
  mkVulmapEngine (opts x) (mode x) (customWriter x) (customProgress x)
    (hostErrCache x) (interactshOpts x) (rateLimiter x) (rc x)
    (resultCallbacks x) (onFailureCallback x) (onUpdateAvailableCallback x)
    (enableStats x) (httpClient x) (httpxClient x) (interactshClient x)
    (catalog x) (browserInstance x) (inputProvider x) v (engine x).

Definition set_engine (v : option core.Engine) (x : VulmapEngine)
  : VulmapEngine :=
  mkVulmapEngine (opts x) (mode x) (customWriter x) (customProgress x)
    (hostErrCache x) (interactshOpts x) (rateLimiter x) (rc x)
    (resultCallbacks x) (onFailureCallback x) (onUpdateAvailableCallback x)
    (enableStats x) (httpClient x) (httpxClient x) (interactshClient x)
    (catalog x) (browserInstance x) (inputProvider x) (executerOpts x) v.

(** A fresh engine, as [&VulmapEngine{opts: o, mode: m}] builds it: every
    other field holds its zero value. *)
Definition zeroExecutorOptions (o : types.Options) : protocols.ExecutorOptions :=
  protocols.mkExecutorOptions None o None None None None None None None None
    None None.

Definition newVulmapEngine (o : types.Options) (m : engineMode) : VulmapEngine :=
  mkVulmapEngine o m None None None None None None [] None None false None None
    None None None None (zeroExecutorOptions o) None.

(** *** The world outside the engine

    What the calls into other packages return.  These packages are not part
    of this development; their results are parameters.  The options are
    handed to them as a value: what a callee writes through the pointer
    [e.opts] is not modelled. *)
Record World := mkWorld {
  (* runner.ValidateOptions *)
  ValidateOptions : types.Options → option error;
  (* the package variables types.ProxyURL and types.ProxySocksURL *)
  ProxyURL : string;
  ProxySocksURL : string;
  httpclientpool_Get : types.Options → handle + error;
  (* config.ReadIgnoreFile *)
  ReadIgnoreFile : config.IgnoreFile;
  interactsh_DefaultOptions :
    option output.Writer → option handle → option progress.Progress → interactsh.Options;
  (* progress.NewStatsTicker *)
  NewStatsTicker : Z → bool → bool → bool → Z → handle + error;
  (* reporting.CreateConfigIfNotExists and reporting.New *)
  CreateConfigIfNotExists : option error;
  reporting_New : handle + error;
  interactsh_New : interactsh.Options → handle + error;
  (* config.DefaultConfig *)
  TemplatesDirectory : string;
  LatestVulmapTemplatesVersion : string;
  httpx_New : handle + error;
  (* installer.TemplateManager.UpdateIfOutdated *)
  UpdateIfOutdated : option error;
  (* parsers.NewLoader, loader.New, and what store.Load finds *)
  parsers_NewLoader : protocols.ExecutorOptions → handle + error;
  loader_New :
    types.Options → option disk.Catalog → protocols.ExecutorOptions → handle + error;
  store_Templates : handle → list string;
  store_Workflows : handle → list string;
  (* inputs.SimpleInputProvider's methods *)
  inputs_Set : string → inputs.SimpleInputProvider → inputs.SimpleInputProvider;
  inputs_Count : inputs.SimpleInputProvider → Z
}.

Inductive Level := LevelVerbose | LevelDebug | LevelSilent.

(** Effects on the outside, in the order the code performs them. *)
Inductive Event :=
  | EvSetMaxLevel (l : Level)
  | EvProtocolstateInit
  | EvProtocolinitInit
  | EvReadIgnoreFile
  | EvSDKVersionCheck
  | EvUpdateAvailableCallback (cb : handle) (version : string)
  | EvUpdateIfOutdated
  | EvStoreLoad (store : handle)
  | EvExecuteScan (templates : list string) (provider : inputs.SimpleInputProvider)
      (noCluster : bool)
  | EvWorkPoolWait.

Definition isReadIgnoreFile (ev : Event) : bool :=
  match ev with EvReadIgnoreFile => true | _ => false end.

Definition isExecuteScan (ev : Event) : bool :=
  match ev with EvExecuteScan _ _ _ => true | _ => false end.

(** Package-level state: the [sync.Once] of [updateCheckInstance], and the
    effects performed so far. *)
Record Globals := mkGlobals {
  updateCheckDone : bool;
  trace : list Event
}.

(** *** Method bodies

    A method body runs on the engine behind its receiver pointer and on the
    globals; it falls through with a value, executes [return], or panics
    on a nil pointer. *)
Inductive Flow (A : Type) :=
  | Continue (a : A)
  | Return (r : option error)
  | Panic.
Arguments Continue {A} a.
Arguments Return {A} r.
Arguments Panic {A}.

Definition St : Type := VulmapEngine * Globals.
Definition I (A : Type) : Type := St → Flow A * St.

Definition ret {A} (a : A) : I A := λ st, (Continue a, st).

Definition bind {A B} (m : I A) (k : A → I B) : I B :=
  λ st, match m st with
        | (Continue a, st') => k a st'
        | (Return r, st') => (Return r, st')
        | (Panic, st') => (Panic, st')
        end.

Notation "'let*' x ':=' m 'in' k" := (bind m (λ x, k))
  (at level 10, x pattern, m at level 100, k at level 200).
Notation "m ';;;' k" := (bind m (λ _, k))
  (at level 100, k at level 200, right associativity).

Definition this : I VulmapEngine := λ st, (Continue (fst st), st).

Definition assign (f : VulmapEngine → VulmapEngine) : I unit :=
  λ st, (Continue tt, (f (fst st), snd st)).

Definition emit (ev : Event) : I unit :=
  λ st, (Continue tt,
         (fst st, mkGlobals (updateCheckDone (snd st)) (trace (snd st) ++ [ev]))).

Definition return_ {A} (r : option error) : I A := λ st, (Return r, st).

Definition deref {A} (p : option A) : I A :=
  λ st, match p with
        | Some a => (Continue a, st)
        | None => (Panic, st)
        end.

(** [updateCheckInstance.Do(func() { ...; err = ... })] runs the function
    the first time only; otherwise [err] keeps its zero value. *)
Definition once (f : I (option error)) : I (option error) :=
  λ st, if updateCheckDone (snd st) then (Continue None, st)
        else f (fst st, mkGlobals true (trace (snd st))).

(** [if err != nil { return err }] *)
Definition check (r : option error) : I unit :=
  match r with
  | Some err => return_ (Some err)
  | None => ret tt
  end.

Definition when (b : bool) (m : I unit) : I unit := if b then m else ret tt.

Definition isNil {A} (o : option A) : bool :=
  match o with None => true | Some _ => false end.

Definition nonEmpty (s : string) : bool := negb (String.eqb s EmptyString).

Definition applyRequiredDefaults (w : World) : I unit :=
  let* e := this in
  when (isNil (customWriter e))
    (assign (set_customWriter (Some (output.MockOutputWriter (onFailureCallback e))))) ;;;
  let* e := this in
  when (isNil (customProgress e))
    (assign (set_customProgress (Some progress.MockProgressClient))) ;;;
  let* e := this in
  when (isNil (hostErrCache e))
    (assign (set_hostErrCache
       (Some (hosterrorscache.New 30 hosterrorscache.DefaultMaxHostsCount [])))) ;;;
  (* setup interactsh *)
  let* e := this in
  match interactshOpts e with
  | Some io =>
      assign (set_interactshOpts
        (Some (interactsh.set_Progress (customProgress e)
                 (interactsh.set_Output (customWriter e) io))))
  | None =>
      assign (set_interactshOpts
        (Some (interactsh_DefaultOptions w (customWriter e) (rc e) (customProgress e))))
  end ;;;
  let* e := this in
  when (isNil (rateLimiter e))
    (assign (set_rateLimiter (Some (ratelimit.New 150 time.Second)))) ;;;
  (* these templates are known to have weak matchers *)
  emit EvReadIgnoreFile ;;;
  assign (λ e, set_opts (types.set_ExcludeTags (config.Tags (ReadIgnoreFile w)) (opts e)) e) ;;;
  assign (set_inputProvider (Some (inputs.mkSimpleInputProvider []))).

Definition processUpdateCheckResults (w : World) : I unit :=
  let* err :=
    once
      (let* e := this in
       match onUpdateAvailableCallback e with
       | Some cb => emit (EvUpdateAvailableCallback cb (LatestVulmapTemplatesVersion w))
       | None => ret tt
       end ;;;
       emit EvUpdateIfOutdated ;;;
       ret (UpdateIfOutdated w)) in
  return_ err.

Definition init (w : World) : I unit :=
  let* e := this in
  (if types.Verbose (opts e) then emit (EvSetMaxLevel LevelVerbose)
   else if types.Debug (opts e) then emit (EvSetMaxLevel LevelDebug)
   else if types.Silent (opts e) then emit (EvSetMaxLevel LevelSilent)
   else ret tt) ;;;
  check (ValidateOptions w (opts e)) ;;;
  when (types.ProxyInternal (opts e) && nonEmpty (ProxyURL w) || nonEmpty (ProxySocksURL w))
    match httpclientpool_Get w (opts e) with
    | inr err => return_ (Some err)
    | inl httpclient => assign (set_httpClient (Some httpclient))
    end ;;;
  emit EvProtocolstateInit ;;;
  emit EvProtocolinitInit ;;;
  applyRequiredDefaults w ;;;
  (* setup progressbar *)
  let* e := this in
  when (enableStats e)
    match NewStatsTicker w (types.StatsInterval (opts e)) (enableStats e)
            (types.StatsJSON (opts e)) false (types.MetricsPort (opts e)) with
    | inr progressErr => return_ None  (* [return err], and [err] is still nil *)
    | inl progressInstance =>
        assign (set_customProgress (Some (progress.StatsTicker progressInstance))) ;;;
        let* e := this in
        let* io := deref (interactshOpts e) in
        assign (set_interactshOpts
          (Some (interactsh.set_Progress (Some (progress.StatsTicker progressInstance)) io)))
    end ;;;
  check (CreateConfigIfNotExists w) ;;;
  (* we don't support reporting config in sdk mode *)
  match reporting_New w with
  | inr err => assign (set_rc None) ;;; return_ (Some err)
  | inl client => assign (set_rc (Some client))
  end ;;;
  let* e := this in
  let* io := deref (interactshOpts e) in
  assign (set_interactshOpts (Some (interactsh.set_IssuesClient (rc e) io))) ;;;
  when (negb (isNil (httpClient e)))
    (let* e := this in
     let* io := deref (interactshOpts e) in
     assign (set_interactshOpts (Some (interactsh.set_HTTPClient (httpClient e) io)))) ;;;
  let* e := this in
  let* io := deref (interactshOpts e) in
  match interactsh_New w io with
  | inr err => assign (set_interactshClient None) ;;; return_ (Some err)
  | inl client => assign (set_interactshClient (Some client))
  end ;;;
  assign (set_catalog (Some (disk.NewCatalog (TemplatesDirectory w)))) ;;;
  let* e := this in
  assign (set_executerOpts
    (protocols.mkExecutorOptions (customWriter e) (opts e) (customProgress e)
       (catalog e) (rc e) (rateLimiter e) (interactshClient e) (hostErrCache e)
       (Some (aurora.NewAurora true)) (Some types.NewResumeCfg) (browserInstance e) None)) ;;;
  let* e := this in
  (if 0 <? types.RateLimitMinute (opts e) then
     assign (set_executerOpts (protocols.set_RateLimiter
       (Some (ratelimit.New (uint (types.RateLimitMinute (opts e))) time.Minute))
       (executerOpts e)))
   else if 0 <? types.RateLimit (opts e) then
     assign (set_executerOpts (protocols.set_RateLimiter
       (Some (ratelimit.New (uint (types.RateLimit (opts e))) time.Second))
       (executerOpts e)))
   else
     assign (set_executerOpts (protocols.set_RateLimiter
       (Some ratelimit.NewUnlimited) (executerOpts e)))) ;;;
  let* e := this in
  assign (set_engine (Some (core.SetExecuterOptions (executerOpts e) (core.New (opts e))))) ;;;
  match httpx_New w with
  | inr err => assign (set_httpxClient None) ;;; return_ (Some err)
  | inl client => assign (set_httpxClient (Some client))
  end ;;;
  (* Only Happens once regardless how many times this function is called *)
  emit EvSDKVersionCheck ;;;
  processUpdateCheckResults w.

(** [unsafeOptions]: objects that are not thread safe, created on every
    [ExecuteVulmapWithOpts] invocation. *)
Module unsafeOptions.
Record t := mk {
  executerOpts : protocols.ExecutorOptions;
  engine : option core.Engine
}.
End unsafeOptions.

Definition createEphemeralObjects (base : VulmapEngine) (o : types.Options)
  : unsafeOptions.t * option error :=
  let x :=
    protocols.mkExecutorOptions (customWriter base) o (customProgress base)
      (catalog base) (rc base) (rateLimiter base) (interactshClient base)
      (hostErrCache base) (Some (aurora.NewAurora true)) (Some types.NewResumeCfg) None None in
  let x :=
    if 0 <? types.RateLimitMinute o then
      protocols.set_RateLimiter
        (Some (ratelimit.New (uint (types.RateLimitMinute o)) time.Minute)) x
    else if 0 <? types.RateLimit o then
      protocols.set_RateLimiter
        (Some (ratelimit.New (uint (types.RateLimit o)) time.Second)) x
    else
      protocols.set_RateLimiter (Some ratelimit.NewUnlimited) x in
  (unsafeOptions.mk x (Some (core.SetExecuterOptions x (core.New o))), None).

(** [VulmapSDKOptions = func(e *VulmapEngine) error] *)
Definition VulmapSDKOptions : Type := VulmapEngine → VulmapEngine * option error.

(** [for _, option := range opts { if err := option(e); err != nil { return err } }] *)
Fixpoint applyOptions (options : list VulmapSDKOptions) (e : VulmapEngine)
  : VulmapEngine + error :=
  match options with
  | [] => inl e
  | option :: rest =>
      match option e with
      | (_, Some err) => inr err
      | (e', None) => applyOptions rest e'
      end
  end.

(** The receiver of [ExecuteVulmapWithOpts] is a [ThreadSafeVulmapEngine];
    the engine of the state is its field [eng]. *)
Definition ExecuteVulmapWithOpts (w : World) (targets : list string)
    (options : list VulmapSDKOptions) : I unit :=
  let* eng := this in
  let baseOpts := opts eng in
  match applyOptions options (newVulmapEngine baseOpts threadSafe) with
  | inr err => return_ (Some err)
  | inl tmpEngine =>
  (* create ephemeral vulmap objects/instances/types using base vulmap engine *)
  let '(unsafeOpts, err) := createEphemeralObjects eng (opts tmpEngine) in
  check err ;;;
  (* load templates *)
  match parsers_NewLoader w (unsafeOptions.executerOpts unsafeOpts) with
  | inr err => return_ (Some (errorutil_New "Could not create workflow loader: %s\n" err))
  | inl workflowLoader =>
  let xo :=
    protocols.set_WorkflowLoader (Some workflowLoader)
      (unsafeOptions.executerOpts unsafeOpts) in
  match loader_New w (opts tmpEngine) (catalog eng) xo with
  | inr err => return_ (Some (errorutil_New "Could not create loader client: %s\n" err))
  | inl store =>
  emit (EvStoreLoad store) ;;;
  (* load targets *)
  let inputProvider :=
    foldl (λ p target, inputs_Set w target p) (inputs.mkSimpleInputProvider []) targets in
  if (length (store_Templates w store) =? 0)%nat
     && (length (store_Workflows w store) =? 0)%nat then
    return_ (Some ErrNoTemplatesAvailable)
  else if inputs_Count w inputProvider =? 0 then
    return_ (Some ErrNoTargetsAvailable)
  else
    let engine := core.SetExecuterOptions xo (core.New (opts tmpEngine)) in
    emit (EvExecuteScan (store_Templates w store) inputProvider false) ;;;
    emit EvWorkPoolWait ;;;
    return_ None
  end end end.

(** *** Assertions about method bodies

    [triple T P m Q R]: from a state in [P], the body [m] falls through
    into [Q], returns into [R], and panics only if [T]. *)
Definition triple {A} (T : Prop) (P : St → Prop) (m : I A)
    (Q : A → St → Prop) (R : option error → St → Prop) : Prop :=
  ∀ st, P st →
    match m st with
    | (Continue a, st') => Q a st'
    | (Return r, st') => R r st'
    | (Panic, _) => T
    end.

(** How many events of a kind a trace holds. *)
Definition count (p : Event → bool) (tr : list Event) : nat :=
  length (List.filter p tr).

(** The limiter as the spec describes it: per minute if
    [RateLimitMinute] is set, else per second if [RateLimit] is set, else
    unlimited. *)
Definition limiter_as_specified (o : types.Options) (l : option ratelimit.Limiter) : Prop :=
  (0 < types.RateLimitMinute o →
     l = Some (ratelimit.New (types.RateLimitMinute o) time.Minute)) ∧
  (types.RateLimitMinute o ≤ 0 → 0 < types.RateLimit o →
     l = Some (ratelimit.New (types.RateLimit o) time.Second)) ∧
  (types.RateLimitMinute o ≤ 0 → types.RateLimit o ≤ 0 →
     l = Some ratelimit.NewUnlimited).

(** The engine's options still hold the rate limits of [o]. *)
Definition keepsRates (o : types.Options) (st : St) : Prop :=
  types.RateLimit (opts (fst st)) = types.RateLimit o ∧
  types.RateLimitMinute (opts (fst st)) = types.RateLimitMinute o.

(** If the core engine has been built, it was given the engine's executor
    options, and their limiter is the one the spec describes. *)
Definition engineLimited (o : types.Options) (e : VulmapEngine) : Prop :=
  ∀ ce, engine e = Some ce →
    core.executerOpts ce = Some (executerOpts e) ∧
    limiter_as_specified o (protocols.RateLimiter (executerOpts e)).

(** The host error cache that [applyRequiredDefaults] leaves. *)
Definition cacheAfterDefaults (supplied : option hosterrorscache.Cache)
  : hosterrorscache.Cache :=
  match supplied with
  | Some c => c
  | None => hosterrorscache.New 30 hosterrorscache.DefaultMaxHostsCount []
  end.

(** The targets of a call, loaded into a fresh input provider. *)
Definition loadTargets (w : World) (targets : list string) : inputs.SimpleInputProvider :=
  foldl (λ p target, inputs_Set w target p) (inputs.mkSimpleInputProvider []) targets.

(** *** A world to run the SDK in

    Every outside call succeeds; the ignore file lists two tags; the
    template store holds [templates]. *)
Definition demoWorld (templates : list string) : World :=
  mkWorld (λ _, None) EmptyString EmptyString (λ _, inl 1%nat)
    (config.mkIgnoreFile ["dos"; "fuzz"] [])
    (λ out rc prog, interactsh.mkOptions out rc prog None)
    (λ _ _ _ _ _, inl 2%nat) None (inl 3%nat) (λ _, inl 4%nat)
    "/templates" "v9.9.9" (inl 5%nat) None
    (λ _, inl 6%nat) (λ _ _ _, inl 7%nat) (λ _, templates) (λ _, [])
    (λ target p, inputs.mkSimpleInputProvider
       (inputs.Inputs p ++ [contextargs.mkMetaInput target EmptyString]))
    (λ p, Z.of_nat (length (inputs.Inputs p))).

Definition demoOptions (rateLimit rateLimitMinute : Z) : types.Options :=
  types.mkOptions false false false false 5 false 9092 rateLimit rateLimitMinute
    ["user-tag"].

Definition demoEngine (rateLimit rateLimitMinute : Z) : VulmapEngine :=
  newVulmapEngine (demoOptions rateLimit rateLimitMinute) threadSafe.

Definition demoGlobals : Globals := mkGlobals false [].

(** The engine after a successful [init]. *)
Definition demoInit (rateLimit rateLimitMinute : Z) : Flow unit * St :=
  init (demoWorld ["cve-2021-0001"]) (demoEngine rateLimit rateLimitMinute, demoGlobals).

(** A world in which the stats ticker cannot start, and an engine with
    stats enabled. *)
Definition demoWorldNoStats : World :=
  mkWorld (λ _, None) EmptyString EmptyString (λ _, inl 1%nat)
    (config.mkIgnoreFile ["dos"; "fuzz"] [])
    (λ out rc prog, interactsh.mkOptions out rc prog None)
    (λ _ _ _ _ _, inr (Err "listen tcp :9092: bind: address already in use"))
    None (inl 3%nat) (λ _, inl 4%nat)
    "/templates" "v9.9.9" (inl 5%nat) None
    (λ _, inl 6%nat) (λ _ _ _, inl 7%nat) (λ _, []) (λ _, [])
    (λ target p, inputs.mkSimpleInputProvider
       (inputs.Inputs p ++ [contextargs.mkMetaInput target EmptyString]))
    (λ p, Z.of_nat (length (inputs.Inputs p))).

Definition demoEngineStats : VulmapEngine :=
  mkVulmapEngine (demoOptions 0 0) singleInstance None None None None None None []
    None None true None None None None None None
    (zeroExecutorOptions (demoOptions 0 0)) None.

(** A call of [ExecuteVulmapWithOpts] on the initialised engine. *)
Definition demoExecute (templates targets : list string) : Flow unit * St :=
  ExecuteVulmapWithOpts (demoWorld templates) targets []
    (fst (snd (demoInit 0 0)), demoGlobals).

End vulmap.


(** ** Package ldap: the LDAP helper of the JavaScript layer *)
Module ldap.

(** [strings.Split(s, ",")], [strings.TrimPrefix] and [strings.Join]. *)
Fixpoint Split (sep : Ascii.ascii) (s : string) : list string :=
  match s with
  | EmptyString => [EmptyString]
  | String c rest =>
      if Ascii.eqb c sep then EmptyString :: Split sep rest
      else match Split sep rest with
           | part :: parts => String c part :: parts
           | [] => [String c EmptyString]
           end
  end.

Fixpoint stripPrefix (prefix s : string) : option string :=
  match prefix, s with
  | EmptyString, _ => Some s
  | String a prefix', String b s' =>
      if Ascii.eqb a b then stripPrefix prefix' s' else None
  | String _ _, EmptyString => None
  end.

Definition TrimPrefix (s prefix : string) : string :=
  default s (stripPrefix prefix s).

Definition Join (parts : list string) (sep : string) : string :=
  String.concat sep parts.

(** [fmt.Sprintf("%s:%d", host, port)] *)
Definition hostPort (host : string) (port : Z) : string :=
  host +:+ ":" +:+ NilZero.string_of_int (Z.to_int port).

Record ldapSessionOptions := mkLdapSessionOptions {
  domain : string;
  domainController : string;
  port : Z;
  username : string;
  password : string;
  baseDN : string
}.

Definition set_baseDN (v : string) (x : ldapSessionOptions)
  : ldapSessionOptions :=
  mkLdapSessionOptions (domain x) (domainController x) (port x) (username x)
    (password x) v.

(** [LDAPMetadata] is the metadata for ldap server. *)
Record LDAPMetadata := mkLDAPMetadata {
  BaseDN : string;
  Domain : string;
  DefaultNamingContext : string;
  DomainFunctionality : string;
  ForestFunctionality : string;
  DomainControllerFunctionality : string;
  DnsHostName : string
}.

Definition set_BaseDN (v : string) (x : LDAPMetadata) : LDAPMetadata :=
  mkLDAPMetadata v (Domain x) (DefaultNamingContext x) (DomainFunctionality
    x) (ForestFunctionality x) (DomainControllerFunctionality x)
    (DnsHostName x).

Definition set_Domain (v : string) (x : LDAPMetadata) : LDAPMetadata :=
  mkLDAPMetadata (BaseDN x) v (DefaultNamingContext x) (DomainFunctionality
    x) (ForestFunctionality x) (DomainControllerFunctionality x)
    (DnsHostName x).

Definition set_DefaultNamingContext (v : string) (x : LDAPMetadata)
  : LDAPMetadata :=
  mkLDAPMetadata (BaseDN x) (Domain x) v (DomainFunctionality x)
    (ForestFunctionality x) (DomainControllerFunctionality x) (DnsHostName
    x).

Definition set_DomainFunctionality (v : string) (x : LDAPMetadata)
  : LDAPMetadata :=
  mkLDAPMetadata (BaseDN x) (Domain x) (DefaultNamingContext x) v
    (ForestFunctionality x) (DomainControllerFunctionality x) (DnsHostName
    x).

Definition set_ForestFunctionality (v : string) (x : LDAPMetadata)
  : LDAPMetadata :=
  mkLDAPMetadata (BaseDN x) (Domain x) (DefaultNamingContext x)
    (DomainFunctionality x) v (DomainControllerFunctionality x) (DnsHostName
    x).

Definition set_DomainControllerFunctionality (v : string) (x : LDAPMetadata)
  : LDAPMetadata :=
  mkLDAPMetadata (BaseDN x) (Domain x) (DefaultNamingContext x)
    (DomainFunctionality x) (ForestFunctionality x) v (DnsHostName x).

Definition set_DnsHostName (v : string) (x : LDAPMetadata) : LDAPMetadata :=
  mkLDAPMetadata (BaseDN x) (Domain x) (DefaultNamingContext x)
    (DomainFunctionality x) (ForestFunctionality x)
    (DomainControllerFunctionality x) v.

(** [LDAPMetadata{}] *)
Definition zeroLDAPMetadata : LDAPMetadata :=
  mkLDAPMetadata EmptyString EmptyString EmptyString EmptyString EmptyString
    EmptyString EmptyString.

(** Search results of [go-ldap]. *)
Record EntryAttribute := mkEntryAttribute {
  Name : string;
  Values : list string
}.

Record Entry := mkEntry { Attributes : list EntryAttribute }.

Record SearchResult := mkSearchResult { Entries : list Entry }.

(** [Entry.GetAttributeValue]: the first value of the first attribute of
    that name, or the empty string. *)
Definition GetAttributeValue (e : Entry) (attribute : string) : string :=
  match List.find (λ a, String.eqb (Name a) attribute) (Attributes e) with
  | Some a => List.hd EmptyString (Values a)
  | None => EmptyString
  end.

(** The network, the network policy and the LDAP server, as the calls
    into [protocolstate], [fingerprintx] and [go-ldap] see them. *)
Record World := mkWorld {
  (* protocolstate.IsHostAllowed *)
  IsHostAllowed : string → bool;
  (* protocolstate.Dialer.Dial(ctx, network, address) *)
  Dial : string → string → handle + error;
  (* LDAPPlugin.Run(conn, timeout, target): a service, nil, or an error *)
  plugin_Run : handle → time.Duration → string → option handle + error;
  UnauthenticatedBind : handle → string → option error;
  Bind : handle → string → string → option error;
  (* Conn.Search, by the attributes requested *)
  Search : handle → list string → SearchResult + error;
  (* strings.ToLower *)
  ToLower : string → string
}.

Inductive Event :=
  | EvDial (network address : string)
  | EvSetDeadline (conn : handle) (timeout : time.Duration)
  | EvStart (conn : handle)
  | EvClose (conn : handle).

Definition isDial (ev : Event) : bool :=
  match ev with EvDial _ _ => true | _ => false end.

(** Computations that perform network effects. *)
Definition L (A : Type) : Type := list Event → A * list Event.

Definition ret {A} (a : A) : L A := λ tr, (a, tr).

Definition bind {A B} (m : L A) (k : A → L B) : L B :=
  λ tr, let '(a, tr') := m tr in k a tr'.

Notation "'let*' x ':=' m 'in' k" := (bind m (λ x, k))
  (at level 10, x pattern, m at level 100, k at level 200).
Notation "m ';;;' k" := (bind m (λ _, k))
  (at level 100, k at level 200, right associativity).

Definition emit (ev : Event) : L unit := λ tr, (tt, tr ++ [ev]).

(** [protocolstate.Dialer.Dial] *)
Definition dial (w : World) (network address : string) : L (handle + error) :=
  emit (EvDial network address) ;;; ret (Dial w network address).

(** [IsLdap] checks if the given host and port are running ldap server. *)
Definition IsLdap (w : World) (host : string) (port : Z) : L (bool * option error) :=
  if negb (IsHostAllowed w host) then
    (* host is not valid according to network policy *)
    ret (false, Some (ErrHostDenied host))
  else
    let timeout := 10 * time.Second in
    let* r := dial w "tcp" (hostPort host port) in
    match r with
    | inr err => ret (false, Some err)
    | inl conn =>
        emit (EvSetDeadline conn timeout) ;;;
        let res :=
          match plugin_Run w conn timeout host with
          | inr err => (false, Some err)
          | inl None => (false, None)
          | inl (Some _) => (true, None)
          end in
        (* defer conn.Close() *)
        emit (EvClose conn) ;;;
        ret res
    end.

Definition newLdapSession (w : World) (opts : ldapSessionOptions) : L (handle + error) :=
  let port := if port opts =? 0 then 389 else port opts in
  let dc := domainController opts in
  let* r := dial w "tcp" (hostPort dc port) in
  match r with
  | inr err => ret (inr err)
  | inl conn => emit (EvStart conn) ;;; ret (inl conn)
  end.

Definition close (conn : handle) : L unit := emit (EvClose conn).

Definition parseDC (w : World) (input : string) : string :=
  let parts := Split ","%char (ToLower w input) in
  Join (map (λ part, TrimPrefix part "dc=") parts) ".".

(** Returns the options as well: [opts.baseDN] is assigned through the
    pointer. *)
Definition getBaseNamingContext (w : World) (opts : ldapSessionOptions) (conn : handle)
  : ldapSessionOptions * (string * option error) :=
  if negb (String.eqb (baseDN opts) EmptyString) then (opts, (baseDN opts, None))
  else
    match Search w conn ["defaultNamingContext"] with
    | inr err => (opts, (EmptyString, Some err))
    | inl res =>
        match Entries res with
        | [] =>
            (opts, (EmptyString,
               Some (Err "error getting metadata: No LDAP responses from server")))
        | entry :: _ =>
            let defaultNamingContext := GetAttributeValue entry "defaultNamingContext" in
            if String.eqb defaultNamingContext EmptyString then
              (opts, (EmptyString,
                 Some (Err "error getting metadata: attribute defaultNamingContext missing")))
            else
              (set_baseDN defaultNamingContext opts, (defaultNamingContext, None))
        end
    end.

Definition collectLdapMetadata (w : World) (lConn : handle) (opts : ldapSessionOptions)
  : LDAPMetadata * option error :=
  let metadata := zeroLDAPMetadata in
  let err :=
    if String.eqb (username opts) EmptyString then UnauthenticatedBind w lConn EmptyString
    else Bind w lConn (username opts) (password opts) in
  match err with
  | Some err => (metadata, Some err)
  | None =>
      let '(opts, (baseDN, _)) := getBaseNamingContext w opts lConn in
      let metadata := set_BaseDN baseDN metadata in
      let metadata := set_Domain (parseDC w baseDN) metadata in
      match Search w lConn
              ["defaultNamingContext"; "domainFunctionality"; "forestFunctionality";
               "domainControllerFunctionality"; "dnsHostName"] with
      | inr err => (metadata, Some err)
      | inl resMetadata =>
          (foldl (λ metadata entry,
             foldl (λ metadata attr,
               let value := GetAttributeValue entry (Name attr) in
               if String.eqb (Name attr) "defaultNamingContext" then
                 set_DefaultNamingContext value metadata
               else if String.eqb (Name attr) "domainFunctionality" then
                 set_DomainFunctionality value metadata
               else if String.eqb (Name attr) "forestFunctionality" then
                 set_ForestFunctionality value metadata
               else if String.eqb (Name attr) "domainControllerFunctionality" then
                 set_DomainControllerFunctionality value metadata
               else if String.eqb (Name attr) "dnsHostName" then
                 set_DnsHostName value metadata
               else metadata)
             metadata (Attributes entry))
           metadata (Entries resMetadata), None)
      end
  end.

(** [CollectLdapMetadata] collects metadata from ldap server. *)
Definition CollectLdapMetadata (w : World) (domain controller : string)
  : L (LDAPMetadata * option error) :=
  let opts :=
    mkLdapSessionOptions domain controller 0 EmptyString EmptyString EmptyString in
  if negb (IsHostAllowed w domain) then
    (* host is not valid according to network policy *)
    ret (zeroLDAPMetadata, Some (ErrHostDenied domain))
  else
    let* r := newLdapSession w opts in
    match r with
    | inr err => ret (zeroLDAPMetadata, Some err)
    | inl conn =>
        let res := collectLdapMetadata w conn opts in
        (* defer c.close(conn) *)
        close conn ;;;
        ret res
    end.

(** A network whose policy denies the metadata address and whose LDAP
    server answers every search with one entry. *)
Definition demoWorld : World :=
  mkWorld (λ host, negb (String.eqb host "169.254.169.254"))
    (λ _ _, inl 1%nat) (λ _ _ _, inl (Some 2%nat)) (λ _ _, None) (λ _ _ _, None)
    (λ _ _, inl (mkSearchResult
       [mkEntry [mkEntryAttribute "defaultNamingContext" ["dc=corp,dc=example"]]]))
    (λ s, s).

End ldap.


(** ** Package structs: [pkg/js/libs/structs/structs.go] *)
Module structs.

(** A format string as [for _, c := range format] reads it: its runes.
    [string(c)] is the one-rune string, so a piece of the result is again a
    list of runes. *)
Definition rune := Z.

(** [c >= '0' && c <= '9'] *)
Definition isDigit (c : rune) : bool := (48 <=? c) && (c <=? 57).

(** One iteration of the loop of [buildFormatSliceFromStringFormat], on
    the variables [formats] and [temp]. *)
Definition buildStep (st : list (list rune) * list rune) (c : rune)
  : list (list rune) * list rune :=
  let '(formats, temp) := st in
  if isDigit c then (formats, temp ++ [c])
  else
    match temp with
    | _ :: _ => (formats ++ [temp ++ [c]], [])
    | [] => (formats ++ [[c]], [])
    end.

Definition buildFormatSliceFromStringFormat (format : list rune) : list (list rune) :=
  let '(formats, temp) := foldl buildStep ([], []) format in
  match temp with
  | _ :: _ => formats ++ [temp]
  | [] => formats
  end.

(** A piece that is a code: digits, then one rune that is no digit. *)
Fixpoint isCode (p : list rune) : bool :=
  match p with
  | [] => false
  | [c] => negb (isDigit c)
  | d :: rest => isDigit d && isCode rest
  end.

(** A piece that is a bare count: digits only, at least one. *)
Definition isCount (p : list rune) : bool :=
  match p with
  | [] => false
  | _ :: _ => forallb isDigit p
  end.

(** The values that [Pack] tells apart by its type switches: [int64],
    [int], [[]interface{}], and everything else. *)
Inductive Value :=
  | VInt64 (z : Z)
  | VInt (z : Z)
  | VList (l : list Value)
  | VOther (v : handle).

(** The runes of a string literal of ASCII letters. *)
Definition runes (s : string) : list rune :=
  map (λ a, Z.of_N (Ascii.N_of_ascii a)) (String.list_ascii_of_string s).

(** [case "h", "H", "i", "I", "l", "L", "q", "Q", "b", "B":] *)
Definition isIntegerCode (f : list rune) : bool :=
  bool_decide (f ∈ map runes ["h"; "H"; "i"; "I"; "l"; "L"; "q"; "Q"; "b"; "B"]).

(** The body of the loop of [Pack] after its [break] test: an [int64]
    argument under an integer code becomes an [int]. *)
Definition packStep (args : list Value) (i : nat) (f : list rune) : list Value :=
  if isIntegerCode f then
    match args !! i with
    | Some (VInt64 v) => <[i := VInt v]> args
    | _ => args
    end
  else args.

(** The loop runs over [format] with its index [i] and breaks once
    [i >= len(args)]. *)
Fixpoint packLoop (i : nat) (format : list (list rune)) (args : list Value)
  : list Value :=
  match format with
  | [] => args
  | f :: rest =>
      if (length args <=? i)%nat then args
      else packLoop (S i) rest (packStep args i f)
  end.

(** [Pack]; [gostruct.Pack] is the library's packer.  When [msg] is a
    slice the loop writes into the caller's slice; that sharing is not
    modelled. *)
Definition Pack {R : Type} (gostruct_Pack : list (list rune) → list Value → R)
    (formatStr : list rune) (msg : Value) : R :=
  let args :=
    match msg with
    | VList v => v
    | v => [v]
    end in
  let format := buildFormatSliceFromStringFormat formatStr in
  gostruct_Pack format (packLoop 0 format args).

(** [Unpack] and [StructsCalcSize] hand the split format to the library. *)
Definition Unpack {R : Type} (gostruct_UnPack : list (list rune) → list Byte.byte → R)
    (format : list rune) (msg : list Byte.byte) : R :=
  gostruct_UnPack (buildFormatSliceFromStringFormat format) msg.

Definition StructsCalcSize {R : Type} (gostruct_CalcSize : list (list rune) → R)
    (format : list rune) : R :=
  gostruct_CalcSize (buildFormatSliceFromStringFormat format).

End structs.

(** ** Package contextargs, continued: [UseNetworkPort] and [Port] *)
Module contextargs_port.
Import contextargs.

(** An [Add] that reaches [append(values, v...)]: a [[]string] added under
    a key that holds a [[]string].  It is the one write of [Context] that
    stores into the backing array of a slice already stored; every other
    write stores a value of the caller or a freshly built slice. *)
Definition appendsInPlace (ctx : Context) (op : Op) (h : Store) : bool :=
  match op with
  | OpAdd k (VStrings _) =>
      match maps h !! args ctx with
      | Some s =>
          match SyncLockMap_Get k s with
          | (VStrings _, true) => true
          | _ => false
          end
      | None => false
      end
  | _ => false
  end.

(** [reservedPorts] contains list of reserved ports for non-network
    requests. *)
Definition reservedPorts : list string := ["80"; "443"; "8080"; "8443"; "8081"; "53"].

(** What [UseNetworkPort] and [Port] use of the [urlutil] library and of
    [strings.EqualFold]: parsing, the port of a parsed URL, [UpdatePort],
    and the [Host] field. *)
Record Lib := mkLib {
  URL : Type;
  Parse : string → URL + error;
  URL_Port : URL → string;
  UpdatePort : string → URL → URL;
  Host : URL → string;
  EqualFold : string → string → bool
}.

(** [stringsutil.EqualFoldAny]: equal, ignoring case, to one of [ss]. *)
Definition EqualFoldAny (lib : Lib) (s : string) (ss : list string) : bool :=
  existsb (EqualFold lib s) ss.

(** [sliceutil.Dedupe]: the first occurrence of each element, in order. *)
Fixpoint dedupe (seen : list string) (l : list string) : list string :=
  match l with
  | [] => []
  | x :: rest =>
      if bool_decide (x ∈ seen) then dedupe seen rest
      else x :: dedupe (x :: seen) rest
  end.

Definition Dedupe (l : list string) : list string := dedupe [] l.

(** The ports that [UseNetworkPort] replaces. *)
Definition ignorePorts (excludePorts : string) : list string :=
  if negb (String.eqb excludePorts EmptyString)
  then Dedupe (ldap.Split ","%char excludePorts)
  else reservedPorts.

Definition storeMeta (l : loc) (m : MetaInput) : M unit := λ h,
  _ ← metas h !! l; Some (tt, mkStore (<[l := m]> (metas h)) (jars h) (maps h)).

(** [UseNetworkPort] updates input with required/default network port for
    that template, but is ignored if input/target contains non-http
    ports. *)
Definition UseNetworkPort (lib : Lib) (ctx : Context) (port excludePorts : string)
  : M (option error) :=
  let ignorePorts := ignorePorts excludePorts in
  if String.eqb port EmptyString then
    (* if template does not contain port, do nothing *)
    ret None
  else
    let* mi := loadMeta (ctxMetaInput ctx) in
    match Parse lib (Input mi) with
    | inr err => ret (Some err)
    | inl target =>
        let inputPort := URL_Port lib target in
        if String.eqb inputPort EmptyString || EqualFoldAny lib inputPort ignorePorts then
          (* replace port with networkPort *)
          let target := UpdatePort lib port target in
          storeMeta (ctxMetaInput ctx) (mkMetaInput (Host lib target) (CustomIP mi)) ;;;
          ret None
        else ret None
    end.

(** [Port] returns the port of the target. *)
Definition Port (lib : Lib) (ctx : Context) : M string :=
  let* mi := loadMeta (ctxMetaInput ctx) in
  match Parse lib (Input mi) with
  | inr _ => ret EmptyString
  | inl target => ret (URL_Port lib target)
  end.

(** A small URL library to run the two methods with: a target is
    [host] or [host:port], and ports compare as they are. *)
Definition demoLib : Lib :=
  mkLib (string * string)
    (λ s, match ldap.Split ":"%char s with
          | [host] => if String.eqb host EmptyString then inr (Err "empty url")
                      else inl (host, EmptyString)
          | [host; port] => inl (host, port)
          | _ => inr (Err "invalid url")
          end)
    snd
    (λ port u, (fst u, port))
    (λ u, if String.eqb (snd u) EmptyString then fst u else fst u +:+ ":" +:+ snd u)
    String.eqb.

(** A context whose target is [example.com:8080]. *)
Definition demoPortStore : Store :=
  mkStore {[1%positive := mkMetaInput "example.com:8080" EmptyString]}
          {[1%positive := ∅]}
          {[1%positive := mkSyncLockMap ∅ false]}.

End contextargs_port.

(** ** Package ldap, continued: connections opened and closed *)
Module ldap_conns.
Import ldap.

(** The connections that the dials of a trace returned. *)
Definition dialed (w : World) (evs : list Event) : list handle :=
  flat_map (λ ev, match ev with
                  | EvDial network address =>
                      match Dial w network address with
                      | inl conn => [conn]
                      | inr _ => []
                      end
                  | _ => []
                  end) evs.

(** The connections that a trace closes. *)
Definition closed (evs : list Event) : list handle :=
  flat_map (λ ev, match ev with EvClose conn => [conn] | _ => [] end) evs.

(** A string without a comma. *)
Definition noComma (s : string) : bool :=
  forallb (λ a, negb (Ascii.eqb a ","%char)) (String.list_ascii_of_string s).

End ldap_conns.

(** ** Package vulmap, continued: the constructor, the result callback and
    the mock writer's [WriteCallback] *)
Module vulmap_sdk.
Import vulmap.

(** The fields of [output.ResultEvent] that [WriteCallback] reads. *)
Record ResultEvent := mkResultEvent {
  TemplateID : string;
  Matched : string;
  Host : string
}.

(** What [WriteCallback] does with an event: it calls a callback, or
    prints a line. *)
Inductive Output :=
  | Call (callback : handle) (event : ResultEvent)
  | Println (line : string).

(** [mockoutput.WriteCallback], the closure that [applyRequiredDefaults]
    installs; it reads [e.resultCallbacks] when it is called. *)
Definition WriteCallback (e : VulmapEngine) (event : ResultEvent) : list Output :=
  if (0 <? length (resultCallbacks e))%nat then
    flat_map (λ callback,
                match callback with
                | Some callback => [Call callback event]
                | None => []
                end) (resultCallbacks e)
  else
    [Println ("[" +:+ TemplateID event +:+ "] " +:+
              (if negb (String.eqb (Matched event) EmptyString)
               then Matched event else Host event))].

Definition set_resultCallbacks (v : list (option handle)) (x : VulmapEngine)
  : VulmapEngine :=
  mkVulmapEngine (opts x) (mode x) (customWriter x) (customProgress x)
    (hostErrCache x) (interactshOpts x) (rateLimiter x) (rc x) v
    (onFailureCallback x) (onUpdateAvailableCallback x) (enableStats x)
    (httpClient x) (httpxClient x) (interactshClient x) (catalog x)
    (browserInstance x) (inputProvider x) (executerOpts x) (engine x).

(** [GlobalResultCallback] sets a callback function which will be called
    for each result. *)
Definition GlobalResultCallback (callback : option handle) (eng : VulmapEngine)
  : VulmapEngine :=
  set_resultCallbacks [callback] eng.

(** [NewThreadSafeVulmapEngine]; [defaultOptions] is what
    [types.DefaultOptions()] returns.  The result is the engine or the
    error, and the globals; [None] is a panic. *)
Definition NewThreadSafeVulmapEngine (w : World) (defaultOptions : types.Options)
    (options : list VulmapSDKOptions) (g : Globals)
  : option ((option VulmapEngine * option error) * Globals) :=
  (* default options *)
  let e := newVulmapEngine defaultOptions threadSafe in
  match applyOptions options e with
  | inr err => Some ((None, Some err), g)
  | inl e =>
      match init w (e, g) with
      | (Return (Some err), (_, g')) => Some ((None, Some err), g')
      | (Return None, (e', g')) => Some ((Some e', None), g')
      | (Continue _, (e', g')) => Some ((Some e', None), g')
      | (Panic, _) => None
      end
  end.

(** What [init] leaves as it is: the fields of the engine that [init] and
    [applyRequiredDefaults] never assign, the effects already performed,
    and a done [sync.Once].  The options are not among them: [init] hands
    the pointer [e.opts] to other packages. *)
Definition frame (e : VulmapEngine) (g : Globals) (st : St) : Prop :=
  mode (fst st) = mode e ∧
  resultCallbacks (fst st) = resultCallbacks e ∧
  onFailureCallback (fst st) = onFailureCallback e ∧
  onUpdateAvailableCallback (fst st) = onUpdateAvailableCallback e ∧
  enableStats (fst st) = enableStats e ∧
  browserInstance (fst st) = browserInstance e ∧
  (∃ evs, trace (snd st) = trace g ++ evs) ∧
  (updateCheckDone g = true → updateCheckDone (snd st) = true).

(** The value a field holds after [if field == nil { field = default }]. *)
Definition orDefault {A} (supplied : option A) (default : A) : A :=
  match supplied with
  | Some a => a
  | None => default
  end.

(** The objects an engine holds after [applyRequiredDefaults], given the
    engine [e] it started from. *)
Definition defaultsOf (e : VulmapEngine) (st : St) : Prop :=
  customWriter (fst st)
    = Some (orDefault (customWriter e) (output.MockOutputWriter (onFailureCallback e))) ∧
  rateLimiter (fst st)
    = Some (orDefault (rateLimiter e) (ratelimit.New 150 time.Second)) ∧
  hostErrCache (fst st)
    = Some (orDefault (hostErrCache e)
              (hosterrorscache.New 30 hosterrorscache.DefaultMaxHostsCount [])) ∧
  inputProvider (fst st) = Some (inputs.mkSimpleInputProvider []) ∧
  (enableStats e = false →
     customProgress (fst st)
       = Some (orDefault (customProgress e) progress.MockProgressClient)).

(** The engine still holds what [e] was given. *)
Definition suppliedOf (e : VulmapEngine) (st : St) : Prop :=
  customWriter (fst st) = customWriter e ∧
  customProgress (fst st) = customProgress e ∧
  hostErrCache (fst st) = hostErrCache e ∧
  rateLimiter (fst st) = rateLimiter e ∧
  onFailureCallback (fst st) = onFailureCallback e ∧
  enableStats (fst st) = enableStats e.

(** The engine's objects, as [init] hands them to the executor. *)
Definition executorOf (e : VulmapEngine) (x : protocols.ExecutorOptions) : Prop :=
  protocols.Output x = customWriter e ∧
  protocols.Options x = opts e ∧
  protocols.Progress x = customProgress e ∧
  protocols.Catalog x = catalog e ∧
  protocols.IssuesClient x = rc e ∧
  protocols.Interactsh x = interactshClient e ∧
  protocols.HostErrorsCache x = hostErrCache e ∧
  protocols.Browser x = browserInstance e ∧
  protocols.WorkflowLoader x = None.

(** If the core engine has been built, it holds the engine's options and
    executor options, and these carry the engine's objects. *)
Definition engineBuilt (st : St) : Prop :=
  ∀ ce, engine (fst st) = Some ce →
    executorOf (fst st) (executerOpts (fst st)) ∧
    core.executerOpts ce = Some (executerOpts (fst st)) ∧
    core.options ce = opts (fst st).

Definition isUpdateIfOutdated (ev : Event) : bool :=
  match ev with EvUpdateIfOutdated => true | _ => false end.

(** The template update has run at most once, and not at all while the
    [sync.Once] is not done. *)
Definition onceInv (g : Globals) : Prop :=
  (count isUpdateIfOutdated (trace g) ≤ 1)%nat ∧
  (updateCheckDone g = false → count isUpdateIfOutdated (trace g) = 0%nat).

(** An option that succeeds on every engine. *)
Definition succeeds (option : VulmapSDKOptions) : Prop :=
  ∀ e, snd (option e) = None.

(** Engines initialised one after the other in one process. *)
Fixpoint initAll (runs : list (World * VulmapEngine)) (g : Globals) : Globals :=
  match runs with
  | [] => g
  | (w, e) :: rest => initAll rest (snd (snd (init w (e, g))))
  end.

(** An option that sets the exclude-tags, and one that fails. *)
Definition withExcludeTags (tags : list string) : VulmapSDKOptions :=
  λ e, (set_opts (types.set_ExcludeTags tags (opts e)) e, None).

Definition failingOption : VulmapSDKOptions :=
  λ e, (e, Some (Err "option is not thread safe")).

End vulmap_sdk.

(** * Properties *)

(** ** The execution context *)
Module contextargs_facts.
Import contextargs.

(** *** How each method runs on a live context *)
Lemma Set_run c k v h s :
  maps h !! args c = Some s →
  Set_ c k v h = Some (tt, updMap h (args c) (fst (SyncLockMap_Set k v s))).
Proof.
  intros Hs. unfold Set_, bind, loadMap, storeMap. rewrite Hs. simpl.
  rewrite Hs. reflexivity.
Qed.

Lemma SyncLockMap_Get_empty k s :
  SyncLockMap_IsEmpty s = true → SyncLockMap_Get k s = (VNil, false).
Proof.
  unfold SyncLockMap_IsEmpty, SyncLockMap_Get. intros H%bool_decide_eq_true.
  rewrite H, lookup_empty. reflexivity.
Qed.

Lemma Get_run c k h s :
  maps h !! args c = Some s → Get c k h = Some (SyncLockMap_Get k s, h).
Proof.
  intros Hs. unfold Get, hasArgs, bind, loadMap, ret. rewrite Hs. simpl.
  destruct (SyncLockMap_IsEmpty s) eqn:E; simpl.
  - by rewrite SyncLockMap_Get_empty.
  - by rewrite Hs.
Qed.

Lemma Has_run c k h s :
  maps h !! args c = Some s → Has c k h = Some (SyncLockMap_Has k s, h).
Proof.
  intros Hs. unfold Has, hasArgs, bind, loadMap, ret. rewrite Hs. simpl.
  destruct (SyncLockMap_IsEmpty s) eqn:E; simpl.
  - unfold SyncLockMap_Has. apply bool_decide_eq_true in E. rewrite E, lookup_empty.
    rewrite bool_decide_eq_false_2; [done|]. by intros [? ?].
  - by rewrite Hs.
Qed.

Lemma Merge_run c n h s :
  maps h !! args c = Some s →
  Merge c n h = Some (tt, updMap h (args c) (fst (SyncLockMap_Merge n s))).
Proof.
  intros Hs. unfold Merge, bind, loadMap, storeMap. rewrite Hs. simpl.
  rewrite Hs. reflexivity.
Qed.

Lemma updMap_lookup h l s : maps (updMap h l s) !! l = Some s.
Proof. apply lookup_insert_eq. Qed.

Lemma updMap_updMap h l s s' : updMap (updMap h l s) l s' = updMap h l s'.
Proof. unfold updMap; simpl. by rewrite insert_insert_eq. Qed.


Lemma updMap_id h l s : maps h !! l = Some s → updMap h l s = h.
Proof. intros H. destruct h; unfold updMap; simpl in *. by rewrite insert_id. Qed.

(** [Add] writes [Add_result] into the map. *)
Lemma Add_run c k v h s :
  maps h !! args c = Some s →
  Add c k v h = Some (tt, updMap h (args c) (Add_result k v s)).
Proof.
  intros Hs. unfold Add, Add_result. unfold bind at 1. unfold loadMap at 1.
  rewrite Hs. simpl.
  destruct (SyncLockMap_Get k s) as [values ok] eqn:EG.
  unfold bind at 1.
  destruct ok; simpl.
  - unfold ret at 1.
    assert (Hdef : ∀ w, (let* r := Get c k in Set_ c k (VSlice [r.1; w])) h =
      Some (tt, updMap h (args c)
                  (SyncLockMap_Set k (VSlice [(SyncLockMap_Get k s).1; w]) s).1)).
    { intros w. unfold bind. rewrite (Get_run _ _ _ _ Hs). apply Set_run, Hs. }
    destruct v; try apply Hdef; destruct values;
      first [ apply Set_run, Hs | unfold ret; by rewrite updMap_id ].
  - rewrite (Set_run _ _ _ _ _ Hs).
    set (s1 := (SyncLockMap_Set k v s).1).
    pose proof (updMap_lookup h (args c) s1) as H1.
    assert (Hdef : ∀ w,
      (let* r := Get c k in Set_ c k (VSlice [r.1; w])) (updMap h (args c) s1) =
      Some (tt, updMap h (args c)
                  (SyncLockMap_Set k (VSlice [(SyncLockMap_Get k s1).1; w]) s1).1)).
    { intros w. unfold bind. rewrite (Get_run _ _ _ _ H1).
      rewrite (Set_run _ _ _ _ _ H1). by rewrite updMap_updMap. }
    destruct v; try apply Hdef; destruct values;
      first [ rewrite (Set_run _ _ _ _ _ H1); by rewrite updMap_updMap | done ].
Qed.

Lemma live_inv h c :
  live h c = true →
  ∃ m j s, metas h !! ctxMetaInput c = Some m ∧ jars h !! CookieJar c = Some j
           ∧ maps h !! args c = Some s ∧ ReadOnly s = false.
Proof.
  unfold live. destruct (metas h !! _) as [m|]; [|done].
  destruct (jars h !! _) as [j|]; [|done].
  destruct (maps h !! _) as [s|]; [|done].
  intros H%negb_true_iff. eauto 10.
Qed.

Lemma Clone_inv c h c' h1 :
  Clone c h = Some (c', h1) →
  ∃ m s, metas h !! ctxMetaInput c = Some m ∧ maps h !! args c = Some s
    ∧ c' = mkContext (fresh (dom (metas h))) (CookieJar c) (fresh (dom (maps h)))
    ∧ h1 = mkStore (<[fresh (dom (metas h)) := MetaInput_Clone m]> (metas h)) (jars h)
                   (<[fresh (dom (maps h)) := SyncLockMap_Clone s]> (maps h)).
Proof.
  unfold Clone, bind, loadMeta, loadMap, newMeta, newMap, ret.
  destruct (metas h !! _) as [m|] eqn:Em; [|done]. simpl.
  destruct (maps h !! _) as [s|] eqn:Es; [|done]. simpl.
  intros [= <- <-]. eauto 10.
Qed.

Lemma fresh_loc_ne {A} (m : gmap loc A) l x : m !! l = Some x → fresh (dom m) ≠ l.
Proof.
  intros H E. apply (is_fresh (dom m)). rewrite E. apply elem_of_dom. eauto.
Qed.

(** *** Live contexts stay live *)
Lemma Clone_total c h :
  live h c = true → ∃ c' h1, Clone c h = Some (c', h1).
Proof.
  intros (m & j & s & Hm & Hj & Hs & Hro)%live_inv.
  unfold Clone, bind, loadMeta, loadMap, newMeta, newMap, ret.
  rewrite Hm. simpl. rewrite Hs. simpl. eauto.
Qed.

Lemma Clone_live c h c' h1 :
  live h c = true → Clone c h = Some (c', h1) →
  live h1 c = true ∧ live h1 c' = true.
Proof.
  intros (m & j & s & Hm & Hj & Hs & Hro)%live_inv
         (m' & s' & Hm' & Hs' & -> & ->)%Clone_inv.
  pose proof (fresh_loc_ne _ _ _ Hm) as Hne1.
  pose proof (fresh_loc_ne _ _ _ Hs) as Hne2.
  simplify_eq. unfold live. simpl.
  rewrite !lookup_insert_eq, Hj.
  rewrite !lookup_insert_ne by done. rewrite Hm, Hs. simpl. by rewrite Hro.
Qed.

(** A [Set] through one pointer is not seen through another. *)
Lemma Set_other_context c c' k v h h2 :
  args c ≠ args c' → Set_ c' k v h = Some (tt, h2) →
  ∀ k2, eval (Get c k2) h2 = eval (Get c k2) h.
Proof.
  intros Hne Hset k2. unfold Set_, bind, loadMap, storeMap in Hset.
  destruct (maps h !! args c') as [s'|] eqn:Es'; [|done]. simpl in Hset.
  rewrite Es' in Hset. simpl in Hset. injection Hset as <-.
  unfold eval, Get, hasArgs, bind, loadMap, ret. simpl.
  rewrite lookup_insert_ne by done.
  destruct (maps h !! args c) as [s|] eqn:Es; [|done]. simpl.
  destruct (negb (negb (SyncLockMap_IsEmpty s))); simpl; [done|].
  rewrite lookup_insert_ne by done. by rewrite Es.
Qed.

Lemma Clone_args_fresh c h c' h1 :
  Clone c h = Some (c', h1) → args c ≠ args c'.
Proof.
  intros (m & s & Hm & Hs & -> & ->)%Clone_inv. simpl.
  intros E. by apply (fresh_loc_ne _ _ _ Hs).
Qed.

(** C2.  After [c' = c.Clone()], a [Set] on the clone succeeds and leaves
    every [c.Get(k2)] as it was, and a [Set] on the original succeeds and
    leaves every [c'.Get(k2)] as it was: the clone's key-value store is a
    fresh object. *)
Theorem Clone_args_isolated (c c' : Context) (h h1 : Store) :
  Clone c h = Some (c', h1) →
  ∀ k v,
    (∃ h2, Set_ c' k v h1 = Some (tt, h2) ∧
       ∀ k2, ∃ r, eval (Get c k2) h1 = Some r ∧ eval (Get c k2) h2 = Some r) ∧
    (∃ h2, Set_ c k v h1 = Some (tt, h2) ∧
       ∀ k2, ∃ r, eval (Get c' k2) h1 = Some r ∧ eval (Get c' k2) h2 = Some r).
Proof.
  intros (m & s & Hm & Hs & -> & ->)%Clone_inv k v.
  pose proof (fresh_loc_ne _ _ _ Hs) as Hne.
  set (l' := fresh (dom (maps h))) in *.
  set (h1 := mkStore _ _ _).
  assert (Hc : maps h1 !! args c = Some s).
  { simpl. by rewrite lookup_insert_ne. }
  assert (Hc' : maps h1 !! l' = Some (SyncLockMap_Clone s)).
  { simpl. by rewrite lookup_insert_eq. }
  split.
  - eexists. split; [apply (Set_run (mkContext _ _ l')), Hc'|].
    intros k2. exists (SyncLockMap_Get k2 s). unfold eval. split.
    + by rewrite (Get_run _ _ _ _ Hc).
    + erewrite Get_run; [done|]. simpl. rewrite lookup_insert_ne by done.
      by rewrite lookup_insert_ne.
  - eexists. split; [apply Set_run, Hc|].
    intros k2. exists (SyncLockMap_Get k2 (SyncLockMap_Clone s)). unfold eval. split.
    + by rewrite (Get_run (mkContext _ _ l') _ _ _ Hc').
    + erewrite (Get_run (mkContext _ _ l')); [done|]. simpl.
      rewrite lookup_insert_ne by done. by rewrite lookup_insert_eq.
Qed.

Lemma SetCookies_run j host cs h jar :
  jars h !! j = Some jar →
  SetCookies j host cs h =
    Some (tt, mkStore (metas h) (<[j := Jar_SetCookies host cs jar]> (jars h)) (maps h)).
Proof. intros H. unfold SetCookies, bind, loadJar, storeJar. rewrite H. simpl. by rewrite H. Qed.

Lemma Cookies_run j host h jar :
  jars h !! j = Some jar → Cookies j host h = Some (Jar_Cookies host jar, h).
Proof. intros H. unfold Cookies, bind, loadJar, ret. by rewrite H. Qed.

(** C1, as the code has it.  [c.Clone()] copies the [CookieJar] pointer:
    the clone holds the same jar as the original.  Cookies stored through
    the clone's [CookieJar] are what the original's [CookieJar] returns
    afterwards, and the other way round. *)
Theorem Clone_shares_CookieJar (c c' : Context) (h h1 : Store) (jar : Jar) :
  Clone c h = Some (c', h1) →
  jars h !! CookieJar c = Some jar →
  CookieJar c' = CookieJar c ∧
  ∀ host cs,
    (∃ h2, SetCookies (CookieJar c') host cs h1 = Some (tt, h2) ∧
       ∀ u, eval (Cookies (CookieJar c) u) h2
            = Some (Jar_Cookies u (Jar_SetCookies host cs jar))) ∧
    (∃ h2, SetCookies (CookieJar c) host cs h1 = Some (tt, h2) ∧
       ∀ u, eval (Cookies (CookieJar c') u) h2
            = Some (Jar_Cookies u (Jar_SetCookies host cs jar))).
Proof.
  intros (m & s & Hm & Hs & -> & ->)%Clone_inv Hj. simpl. split; [done|].
  intros host cs. split.
  - eexists. split; [by apply SetCookies_run|].
    intros u. unfold eval. erewrite Cookies_run; [done|]. simpl. apply lookup_insert_eq.
  - eexists. split; [by apply SetCookies_run|].
    intros u. unfold eval. erewrite Cookies_run; [done|]. simpl. apply lookup_insert_eq.
Qed.


(** C1 as stated fails: the original context has no cookie [sid]; the
    clone stores one in its [CookieJar]; the original then reads it from
    its own. *)
Lemma Clone_CookieJar_write_leaks :
  eval shared_jar_scenario emptyStore = Some (None, Some "1").
Proof. vm_compute. reflexivity. Qed.


Lemma Clone_shares_CookieJar_witness :
  Clone demoCtx demoStore = Some (demoClone, demoStore1) ∧
  jars demoStore !! CookieJar demoCtx = Some ∅ ∧
  CookieJar demoClone = CookieJar demoCtx ∧
  ∀ host cs,
    (∃ h2, SetCookies (CookieJar demoClone) host cs demoStore1 = Some (tt, h2) ∧
       ∀ u, eval (Cookies (CookieJar demoCtx) u) h2
            = Some (Jar_Cookies u (Jar_SetCookies host cs ∅))) ∧
    (∃ h2, SetCookies (CookieJar demoCtx) host cs demoStore1 = Some (tt, h2) ∧
       ∀ u, eval (Cookies (CookieJar demoClone) u) h2
            = Some (Jar_Cookies u (Jar_SetCookies host cs ∅))).
Proof.
  split; [vm_compute; reflexivity|]. split; [reflexivity|].
  apply (Clone_shares_CookieJar demoCtx demoClone demoStore demoStore1 ∅).
  - vm_compute. reflexivity.
  - reflexivity.
Defined.

Example demo_new :
  NewWithInput "https://example.com" emptyStore = Some (demoCtx, demoStore).
Proof. vm_compute. reflexivity. Qed.

Lemma Clone_args_isolated_witness :
  Clone demoCtx demoStore = Some (demoClone, demoStore1) ∧
  ∀ k v,
    (∃ h2, Set_ demoClone k v demoStore1 = Some (tt, h2) ∧
       ∀ k2, ∃ r, eval (Get demoCtx k2) demoStore1 = Some r
                  ∧ eval (Get demoCtx k2) h2 = Some r) ∧
    (∃ h2, Set_ demoCtx k v demoStore1 = Some (tt, h2) ∧
       ∀ k2, ∃ r, eval (Get demoClone k2) demoStore1 = Some r
                  ∧ eval (Get demoClone k2) h2 = Some r).
Proof.
  split; [vm_compute; reflexivity|].
  apply (Clone_args_isolated demoCtx demoClone demoStore demoStore1).
  vm_compute; reflexivity.
Defined.

Lemma SyncLockMap_Set_writable k v s :
  ReadOnly s = false → (SyncLockMap_Set k v s).1 = mkSyncLockMap (<[k := v]> (Map s)) false.
Proof. unfold SyncLockMap_Set. intros ->. reflexivity. Qed.

Lemma Set_then_read c h k v :
  live h c = true →
  ∃ h', Set_ c k v h = Some (tt, h') ∧ live h' c = true
        ∧ eval (Get c k) h' = Some (v, true) ∧ eval (Has c k) h' = Some true.
Proof.
  intros Hl. pose proof Hl as (m & j & s & Hm & Hj & Hs & Hro)%live_inv.
  eexists. split; [apply Set_run, Hs|].
  rewrite SyncLockMap_Set_writable by done.
  set (s' := mkSyncLockMap _ _).
  pose proof (updMap_lookup h (args c) s') as H'.
  split; [|split].
  - unfold live. rewrite H'. simpl. by rewrite Hm, Hj.
  - unfold eval. rewrite (Get_run _ _ _ _ H'). simpl.
    unfold SyncLockMap_Get. simpl. by rewrite lookup_insert_eq.
  - unfold eval. rewrite (Has_run _ _ _ _ H'). simpl.
    unfold SyncLockMap_Has. simpl. rewrite lookup_insert_eq.
    by rewrite bool_decide_eq_true_2.
Qed.

(** Writes that do not name [k] keep [k] absent. *)
Lemma SyncLockMap_Set_other k k' v s :
  k' ≠ k → Map (SyncLockMap_Set k' v s).1 !! k = Map s !! k.
Proof.
  intros Hne. unfold SyncLockMap_Set. destruct (ReadOnly s); simpl; [done|].
  by rewrite lookup_insert_ne.
Qed.

Lemma Add_result_other k k' v s :
  k' ≠ k → Map (Add_result k' v s) !! k = Map s !! k.
Proof.
  intros Hne. unfold Add_result.
  destruct (SyncLockMap_Get k' s) as [values ok].
  destruct ok; simpl; destruct v; try destruct values;
    rewrite ?SyncLockMap_Set_other by done; done.
Qed.

Lemma SyncLockMap_Merge_other k n s :
  n !! k = None → Map (SyncLockMap_Merge n s).1 !! k = Map s !! k.
Proof.
  intros Hn. unfold SyncLockMap_Merge. destruct (ReadOnly s); simpl; [done|].
  rewrite lookup_union, Hn. by destruct (Map s !! k).
Qed.

Lemma apply_op_absent c op h s k :
  maps h !! args c = Some s → writes k op = false →
  ∃ s', apply_op c op h = Some (tt, updMap h (args c) s') ∧ Map s' !! k = Map s !! k.
Proof.
  intros Hs Hw. destruct op as [k' v|k' v|n]; simpl in *.
  - apply bool_decide_eq_false in Hw. eexists. split; [apply Set_run, Hs|].
    by apply SyncLockMap_Set_other.
  - apply bool_decide_eq_false in Hw. eexists. split; [apply Add_run, Hs|].
    by apply Add_result_other.
  - apply bool_decide_eq_false in Hw. eexists. split; [apply Merge_run, Hs|].
    apply SyncLockMap_Merge_other. destruct (n !! k) eqn:E; [|done].
    exfalso. apply Hw. eauto.
Qed.

Lemma run_ops_absent c ops : ∀ h s k,
  maps h !! args c = Some s →
  forallb (λ op, negb (writes k op)) ops = true →
  ∃ s', run_ops c ops h = Some (tt, updMap h (args c) s') ∧ Map s' !! k = Map s !! k.
Proof.
  induction ops as [|op ops IH]; intros h s k Hs Hall; simpl in *.
  - exists s. split; [|done]. unfold ret. by rewrite updMap_id.
  - apply andb_true_iff in Hall as [Hop Hall]. apply negb_true_iff in Hop.
    destruct (apply_op_absent c op h s k Hs Hop) as (s1 & Hrun & Hk).
    destruct (IH (updMap h (args c) s1) s1 k (updMap_lookup _ _ _) Hall) as (s2 & Hrun2 & Hk2).
    exists s2. split; [|congruence].
    unfold bind. rewrite Hrun. rewrite Hrun2. by rewrite updMap_updMap.
Qed.

Lemma NewWithInput_inv input h c h1 :
  NewWithInput input h = Some (c, h1) →
  live h1 c = true ∧ maps h1 !! args c = Some (mkSyncLockMap ∅ false).
Proof.
  unfold NewWithInput, bind, newJar, newMeta, newMap, ret. simpl.
  intros [= <- <-]. unfold live. simpl. by rewrite !lookup_insert_eq.
Qed.

Lemma apply_op_live c op h h' :
  live h c = true → apply_op c op h = Some (tt, h') → live h' c = true.
Proof.
  intros Hl. pose proof Hl as (m & j & s & Hm & Hj & Hs & Hro)%live_inv.
  assert (Hupd : ∀ s', ReadOnly s' = false → live (updMap h (args c) s') c = true).
  { intros s' Hs'. unfold live. simpl. rewrite Hm, Hj, lookup_insert_eq. by rewrite Hs'. }
  destruct op as [k v|k v|n]; simpl.
  - rewrite (Set_run _ _ _ _ _ Hs). intros [= <-]. apply Hupd.
    unfold SyncLockMap_Set. by rewrite Hro.
  - rewrite (Add_run _ _ _ _ _ Hs). intros [= <-]. apply Hupd.
    unfold Add_result. destruct (SyncLockMap_Get k s) as [values ok].
    destruct ok; simpl; destruct v; try destruct values;
      unfold SyncLockMap_Set; simpl; rewrite ?Hro; simpl; done.
  - rewrite (Merge_run _ _ _ _ Hs). intros [= <-]. apply Hupd.
    unfold SyncLockMap_Merge. by rewrite Hro.
Qed.

Lemma run_ops_live c ops : ∀ h h',
  live h c = true → run_ops c ops h = Some (tt, h') → live h' c = true.
Proof.
  induction ops as [|op ops IH]; intros h h' Hl; simpl.
  - by intros [= <-].
  - unfold bind. destruct (apply_op c op h) as [[[] h1]|] eqn:E; [|done].
    intros Hrun. eapply IH; [|exact Hrun]. by eapply apply_op_live.
Qed.

(** C8.  On a live context, [c.Set(k, v)] is followed by
    [c.Get(k) = (v, true)] and [c.Has(k) = true].  On a context made by
    [NewWithInput] and written since only under other keys (by [Set],
    [Add] or [Merge]), [c.Get(k)] is [(nil, false)]. *)
Theorem Set_Get_Has_roundtrip :
  (∀ c h k v, live h c = true →
     ∃ h', Set_ c k v h = Some (tt, h')
           ∧ eval (Get c k) h' = Some (v, true) ∧ eval (Has c k) h' = Some true) ∧
  (∀ input h0 c h1 ops k,
     NewWithInput input h0 = Some (c, h1) →
     forallb (λ op, negb (writes k op)) ops = true →
     ∃ h2, run_ops c ops h1 = Some (tt, h2) ∧ eval (Get c k) h2 = Some (VNil, false)).
Proof.
  split.
  - intros c h k v Hl. destruct (Set_then_read c h k v Hl) as (h' & ? & ? & ? & ?). eauto.
  - intros input h0 c h1 ops k [Hl Hs]%NewWithInput_inv Hall.
    destruct (run_ops_absent c ops h1 _ k Hs Hall) as (s' & Hrun & Hk).
    eexists. split; [exact Hrun|].
    unfold eval. rewrite (Get_run _ _ _ _ (updMap_lookup _ _ _)). simpl.
    unfold SyncLockMap_Get. rewrite Hk. simpl. by rewrite lookup_empty.
Qed.

Lemma Set_Get_Has_roundtrip_witness :
  live demoStore demoCtx = true ∧
  (∃ h', Set_ demoCtx "user" (VString "admin") demoStore = Some (tt, h')
         ∧ eval (Get demoCtx "user") h' = Some (VString "admin", true)
         ∧ eval (Has demoCtx "user") h' = Some true) ∧
  NewWithInput "https://example.com" emptyStore = Some (demoCtx, demoStore) ∧
  forallb (λ op, negb (writes "token" op))
    [OpSet "user" (VString "admin"); OpAdd "port" (VInt 443)] = true ∧
  (∃ h2, run_ops demoCtx [OpSet "user" (VString "admin"); OpAdd "port" (VInt 443)] demoStore
           = Some (tt, h2)
         ∧ eval (Get demoCtx "token") h2 = Some (VNil, false)).
Proof.
  split; [vm_compute; reflexivity|].
  split; [apply (proj1 Set_Get_Has_roundtrip); vm_compute; reflexivity|].
  split; [vm_compute; reflexivity|].
  split; [vm_compute; reflexivity|].
  apply (proj2 Set_Get_Has_roundtrip "https://example.com" emptyStore);
    vm_compute; reflexivity.
Defined.


Lemma Has_false_absent c h s k :
  maps h !! args c = Some s → eval (Has c k) h = Some false → Map s !! k = None.
Proof.
  intros Hs. unfold eval. rewrite (Has_run _ _ _ _ Hs). simpl. intros [= H].
  apply bool_decide_eq_false in H. destruct (Map s !! k); [|done]. exfalso. eauto.
Qed.

(** [Add] under a key that is not there: a [string] or a [[]string] is
    stored as it is; any other value [v] is stored and then, by the
    [default] case of the type switch, replaced by the pair [[v, v]]. *)
Lemma Add_fresh c h k v :
  live h c = true → eval (Has c k) h = Some false →
  ∃ h', Add c k v h = Some (tt, h') ∧
        eval (Get c k) h' = Some (if is_stringy v then v else VSlice [v; v], true).
Proof.
  intros (m & j & s & Hm & Hj & Hs & Hro)%live_inv Hhas.
  pose proof (Has_false_absent _ _ _ _ Hs Hhas) as Hk.
  eexists. split; [apply Add_run, Hs|].
  unfold eval. rewrite (Get_run _ _ _ _ (updMap_lookup _ _ _)). simpl. f_equal.
  assert (HG : SyncLockMap_Get k s = (VNil, false)).
  { unfold SyncLockMap_Get. by rewrite Hk. }
  unfold Add_result. rewrite HG. simpl.
  destruct v; simpl; unfold SyncLockMap_Get, SyncLockMap_Set; rewrite Hro; simpl;
    rewrite ?lookup_insert_eq; reflexivity.
Qed.


(** C9 fails on the code: on a new context [Has("port")] is false, and
    after [Add("port", 443)] the key holds [[]interface{}{443, 443}], not
    [443]. *)
Theorem Add_fresh_key_not_like_Set :
  eval add_fresh_scenario emptyStore = Some (false, (VSlice [VInt 443; VInt 443], true)).
Proof. vm_compute. reflexivity. Qed.

End contextargs_facts.
(** ** The SDK engine *)
Module vulmap_facts.
Import vulmap.

(** *** Rules for assertions about method bodies *)
Section rules.
Context (T : Prop).

Lemma triple_ret {A} (P : St → Prop) (a : A) Q R :
  (∀ st, P st → Q a st) → triple T P (ret a) Q R.
Proof. intros H st HP. simpl. auto. Qed.

Lemma triple_bind {A B} (P : St → Prop) (m : I A) (k : A → I B) Q' Q R :
  triple T P m Q' R → (∀ a, triple T (Q' a) (k a) Q R) → triple T P (bind m k) Q R.
Proof.
  intros Hm Hk st HP. unfold bind. specialize (Hm st HP).
  destruct (m st) as [[a| r|] st']; [|done..]. by apply Hk.
Qed.

Lemma triple_bind_assoc {A B C} (P : St → Prop) (m : I A) (k : A → I B)
    (k' : B → I C) Q R :
  triple T P (bind m (λ a, bind (k a) k')) Q R → triple T P (bind (bind m k) k') Q R.
Proof.
  intros H st HP. specialize (H st HP). unfold bind in *.
  by destruct (m st) as [[a| r|] st'].
Qed.

Lemma triple_this {A} (P : St → Prop) (k : VulmapEngine → I A) Q R :
  (∀ e, triple T (λ st, P st ∧ fst st = e) (k e) Q R) → triple T P (bind this k) Q R.
Proof. intros H st HP. unfold bind, this. simpl. by apply (H (fst st)). Qed.

Lemma triple_assign (P : St → Prop) f Q R :
  (∀ e g, P (e, g) → Q tt (f e, g)) → triple T P (assign f) Q R.
Proof. intros H [e g] HP. simpl. auto. Qed.

Lemma triple_emit (P : St → Prop) ev Q R :
  (∀ e g, P (e, g) → Q tt (e, mkGlobals (updateCheckDone g) (trace g ++ [ev]))) →
  triple T P (emit ev) Q R.
Proof. intros H [e g] HP. simpl. auto. Qed.

Lemma triple_return {A} (P : St → Prop) r (Q : A → St → Prop) R :
  (∀ st, P st → R r st) → triple T P (return_ r) Q R.
Proof. intros H st HP. simpl. auto. Qed.

Lemma triple_check (P : St → Prop) r Q R :
  (∀ err st, r = Some err → P st → R (Some err) st) →
  (∀ st, r = None → P st → Q tt st) → triple T P (check r) Q R.
Proof. intros H1 H2 st HP. destruct r; simpl; auto. Qed.

Lemma triple_when (P : St → Prop) b m Q R :
  (b = true → triple T P m Q R) → (b = false → ∀ st, P st → Q tt st) →
  triple T P (when b m) Q R.
Proof. intros H1 H2. destruct b; simpl; [auto|]. intros st HP. simpl. auto. Qed.

Lemma triple_deref {A} (P : St → Prop) (p : option A) Q R :
  (∀ st, P st → match p with Some a => Q a st | None => T end) →
  triple T P (deref p) Q R.
Proof. intros H st HP. specialize (H st HP). by destruct p. Qed.

Lemma triple_once (P : St → Prop) f Q R :
  (∀ e g, P (e, g) → P (e, mkGlobals true (trace g))) →
  (∀ st, P st → Q None st) →
  triple T P f Q R → triple T P (once f) Q R.
Proof.
  intros H1 H2 H3 [e g] HP. unfold once. simpl.
  destruct (updateCheckDone g); [by apply H2|]. apply H3. auto.
Qed.

End rules.

(** A statement that keeps the invariant [Inv]; [side] discharges the
    implications between assertions. *)
Ltac stmt Inv side :=
  lazymatch goal with
  | |- triple _ _ (bind this _) _ _ => apply triple_this; intros ?; stmt Inv side
  | |- triple _ _ (bind _ _) _ _ =>
      apply (triple_bind _ _ _ _ (λ _, Inv)); [stmt Inv side | intros ?; stmt Inv side]
  | |- triple _ _ (assign _) _ _ => apply triple_assign; intros ? ?; side
  | |- triple _ _ (emit _) _ _ => apply triple_emit; intros ? ?; side
  | |- triple _ _ (return_ _) _ _ => apply triple_return; intros [? ?]; side
  | |- triple _ _ (ret _) _ _ => apply triple_ret; intros [? ?]; side
  | |- triple _ _ (check _) _ _ =>
      apply triple_check; [intros ? [? ?] _ | intros [? ?] _]; side
  | |- triple _ _ (when _ _) _ _ =>
      apply triple_when; [intros _; stmt Inv side | intros _ [? ?]; side]
  | |- triple _ _ (deref ?p) _ _ =>
      apply triple_deref; intros [? ?]; destruct p eqn:?; side
  | |- triple _ _ (once _) _ _ =>
      apply triple_once; [intros ? ?; side | intros [? ?]; side | stmt Inv side]
  | |- triple _ _ (match ?x with _ => _ end) _ _ => destruct x; stmt Inv side
  end.

Ltac case_stmt :=
  lazymatch goal with
  | |- triple _ _ (match ?x with _ => _ end) _ _ => destruct x
  end.

(** The statements at the head of a sequence that keep [Inv]. *)
Ltac steps Inv side :=
  lazymatch goal with
  | |- triple _ _ (bind (bind _ _) _) _ _ =>
      apply triple_bind_assoc; cbv beta; steps Inv side
  | |- triple _ _ (bind this _) _ _ => apply triple_this; intros ?; steps Inv side
  | |- triple _ _ (bind _ _) _ _ =>
      tryif (apply (triple_bind _ _ _ _ (λ _, Inv)); [solve [stmt Inv side] | intros ?])
      then steps Inv side else idtac
  | _ => idtac
  end.

(** The next statement, with the assertion [Q] after it. *)
Ltac step Q :=
  lazymatch goal with
  | |- triple _ _ (bind (bind _ _) _) _ _ => apply triple_bind_assoc; cbv beta; step Q
  | |- triple _ _ (bind this _) _ _ => apply triple_this; intros ?; step Q
  | |- triple _ _ (bind _ _) _ _ => apply (triple_bind _ _ _ _ Q)
  end.

Ltac inv_side :=
  unfold keepsRates in *; simpl in *;
  intros; destruct_and?; simplify_eq/=; split_and?; eauto; try congruence.

Lemma count_snoc p tr ev :
  count p (tr ++ [ev]) = (count p tr + (if p ev then 1 else 0))%nat.
Proof.
  unfold count. rewrite List.filter_app, length_app. simpl. by destruct (p ev).
Qed.

Lemma uint_id z : int_range z = true → 0 < z → uint z = z.
Proof.
  unfold int_range, uint. intros [_ H]%andb_true_iff Hz. apply Z.ltb_lt in H.
  apply Z.mod_small. lia.
Qed.

Lemma limiter_chain o :
  int_range (types.RateLimit o) = true → int_range (types.RateLimitMinute o) = true →
  limiter_as_specified o
    (if 0 <? types.RateLimitMinute o
     then Some (ratelimit.New (uint (types.RateLimitMinute o)) time.Minute)
     else if 0 <? types.RateLimit o
          then Some (ratelimit.New (uint (types.RateLimit o)) time.Second)
          else Some ratelimit.NewUnlimited).
Proof.
  intros H1 H2. unfold limiter_as_specified.
  destruct (Z.ltb_spec 0 (types.RateLimitMinute o)) as [Hm|Hm];
    [rewrite uint_id by done|
     destruct (Z.ltb_spec 0 (types.RateLimit o)) as [Hs|Hs]; [rewrite uint_id by done|]];
    repeat split; intros; first [reflexivity | lia].
Qed.

(** [init] never dereferences a nil pointer: [applyRequiredDefaults] has
    set [interactshOpts] before it is used.  It always ends in a [return]. *)
Lemma init_returns w e g :
  ∃ r e' g', init w (e, g) = (Return r, (e', g')).
Proof.
  assert (H : triple False (λ st, interactshOpts (fst st) = interactshOpts e) (init w)
                (λ _ _, False) (λ _ _, True)).
  { unfold init, applyRequiredDefaults, processUpdateCheckResults.
    steps (λ st : St, interactshOpts (fst st) = interactshOpts e) inv_side.
    step (λ (_ : unit) (st : St), is_Some (interactshOpts (fst st))).
    { case_stmt; apply triple_assign; intros; simpl; eauto. }
    intros _.
    stmt (λ st : St, is_Some (interactshOpts (fst st)))
         ltac:(simpl in *; intros; destruct_and?; simplify_eq/=;
               try match goal with
                   | H : is_Some ?x, H' : ?x = None |- _ =>
                       rewrite H' in H; by destruct H
                   end;
               eauto). }
  specialize (H (e, g) eq_refl).
  destruct (init w (e, g)) as [[[]|r|] [e' g']]; [done| |done]. eauto.
Qed.

(** When the stats ticker cannot start, [init] executes [return err] with
    [err] still nil: it reports success although it has built neither the
    executor options nor the core engine. *)
Example init_stats_failure :
  fst (init demoWorldNoStats (demoEngineStats, demoGlobals)) = Return None ∧
  engine (fst (snd (init demoWorldNoStats (demoEngineStats, demoGlobals)))) = None ∧
  protocols.RateLimiter
    (executerOpts (fst (snd (init demoWorldNoStats (demoEngineStats, demoGlobals)))))
    = None.
Proof. vm_compute. repeat split; reflexivity. Qed.

(** Once [init] has built the core engine, the engine's executor options
    carry the limiter chosen from the options. *)
Lemma init_limiter w o x0 :
  int_range (types.RateLimit o) = true → int_range (types.RateLimitMinute o) = true →
  triple True (λ st, engine (fst st) = None ∧ executerOpts (fst st) = x0 ∧ keepsRates o st)
         (init w)
         (λ _ st, engineLimited o (fst st))
         (λ _ st, engineLimited o (fst st)).
Proof.
  intros Hr1 Hr2.
  unfold init, applyRequiredDefaults, processUpdateCheckResults.
  steps (λ st : St, engine (fst st) = None ∧ executerOpts (fst st) = x0 ∧ keepsRates o st)
        ltac:(unfold engineLimited in *; inv_side).
  (* the executor options, the limiter, the engine *)
  step (λ (_ : unit) (st : St), engine (fst st) = None ∧ keepsRates o st);
    [stmt (λ _ : St, True) inv_side|intros _].
  step (λ (_ : unit) (st : St),
          engine (fst st) = None ∧
          limiter_as_specified o (protocols.RateLimiter (executerOpts (fst st)))).
  { intros [e' g'] [[Heng [HR HM]] <-]. simpl in *.
    pose proof (limiter_chain o Hr1 Hr2) as Hl. rewrite HR, HM.
    destruct (0 <? types.RateLimitMinute o); [|destruct (0 <? types.RateLimit o)];
      simpl; split; auto. }
  intros _.
  step (λ (_ : unit) (st : St), engineLimited o (fst st)).
  { apply triple_assign. intros e' g' [[Heng Hl] <-]. simpl in *.
    intros ce [= <-]. simpl. auto. }
  intros _.
  stmt (λ st : St, engineLimited o (fst st))
       ltac:(unfold engineLimited in *; simpl in *; intros; destruct_and?;
             simplify_eq/=; eauto).
Qed.

(** C3.  The rate limiter of the executor options is chosen from the
    options alone: [RateLimitMinute > 0] gives a bucket of that many tokens
    per minute, also when [RateLimit] is set; otherwise [RateLimit > 0]
    gives a bucket of that many tokens per second; otherwise the limiter is
    [ratelimit.NewUnlimited].  This holds for the executor options that
    [createEphemeralObjects] returns, and for those of the core engine that
    [init] builds, whatever limiter the engine held before. *)
Theorem rate_limiter_selection (w : World) (base : VulmapEngine) (o : types.Options) :
  int_range (types.RateLimit o) = true →
  int_range (types.RateLimitMinute o) = true →
  limiter_as_specified o
    (protocols.RateLimiter
       (unsafeOptions.executerOpts (fst (createEphemeralObjects base o)))) ∧
  ∀ e g r e' g' ce,
    opts e = o → engine e = None →
    init w (e, g) = (Return r, (e', g')) →
    engine e' = Some ce →
    core.executerOpts ce = Some (executerOpts e') ∧
    limiter_as_specified o (protocols.RateLimiter (executerOpts e')).
Proof.
  intros Hr1 Hr2. split.
  - pose proof (limiter_chain o Hr1 Hr2) as Hl. unfold createEphemeralObjects. simpl.
    destruct (0 <? types.RateLimitMinute o); [|destruct (0 <? types.RateLimit o)];
      simpl; exact Hl.
  - intros e g r e' g' ce Ho Heng Hinit Hce.
    pose proof (init_limiter w o (executerOpts e) Hr1 Hr2 (e, g)) as H.
    rewrite Hinit in H. apply H; [|done].
    unfold keepsRates. simpl. by rewrite Ho.
Qed.

Lemma rate_limiter_selection_witness :
  int_range 150 = true ∧ int_range 600 = true ∧
  protocols.RateLimiter
    (unsafeOptions.executerOpts
       (fst (createEphemeralObjects (demoEngine 0 0) (demoOptions 150 600))))
    = Some (ratelimit.New 600 time.Minute) ∧
  opts (demoEngine 150 600) = demoOptions 150 600 ∧
  engine (demoEngine 150 600) = None ∧
  protocols.RateLimiter (executerOpts (fst (snd (demoInit 150 600))))
    = Some (ratelimit.New 600 time.Minute).
Proof.
  pose proof (rate_limiter_selection (demoWorld ["cve-2021-0001"]) (demoEngine 0 0)
                (demoOptions 150 600) eq_refl eq_refl) as [[H1 _] H2].
  split; [reflexivity|]. split; [reflexivity|].
  split; [apply H1; reflexivity|].
  split; [reflexivity|]. split; [reflexivity|].
  eapply (H2 (demoEngine 150 600) demoGlobals None _ _ _ eq_refl eq_refl).
  - vm_compute. reflexivity.
  - vm_compute. reflexivity.
  - reflexivity.
Defined.

(** [applyRequiredDefaults] falls through, with a host error cache. *)
Lemma applyRequiredDefaults_cache w hc :
  triple True (λ st, hostErrCache (fst st) = hc) (applyRequiredDefaults w)
    (λ _ st, hostErrCache (fst st) = Some (cacheAfterDefaults hc)) (λ _ _, False).
Proof.
  unfold applyRequiredDefaults.
  steps (λ st : St, hostErrCache (fst st) = hc) inv_side.
  step (λ (_ : unit) (st : St), hostErrCache (fst st) = Some (cacheAfterDefaults hc)).
  { intros [e' g'] [Hc <-]. simpl in *. rewrite Hc. by destruct hc. }
  intros _. stmt (λ st : St, hostErrCache (fst st) = Some (cacheAfterDefaults hc)) inv_side.
Qed.

Lemma init_cache w hc :
  triple True (λ st, hostErrCache (fst st) = hc) (init w)
    (λ _ _, False)
    (λ r st, r = None → hostErrCache (fst st) = Some (cacheAfterDefaults hc)).
Proof.
  unfold init, applyRequiredDefaults, processUpdateCheckResults.
  steps (λ st : St, hostErrCache (fst st) = hc) inv_side.
  step (λ (_ : unit) (st : St), hostErrCache (fst st) = Some (cacheAfterDefaults hc)).
  { intros [e' g'] [Hc <-]. simpl in *. rewrite Hc. by destruct hc. }
  intros _. stmt (λ st : St, hostErrCache (fst st) = Some (cacheAfterDefaults hc)) inv_side.
Qed.

(** C4.  When no host error cache has been supplied, engine initialization
    constructs one with the error threshold 30 and the default maximum
    number of tracked hosts, [DefaultMaxHostsCount], which is 10,000:
    [applyRequiredDefaults] leaves it in the engine, and so does every
    [init] that returns without an error. *)
Theorem default_host_error_cache (w : World) (e : VulmapEngine) (g : Globals) :
  hostErrCache e = None →
  (∃ e' g', applyRequiredDefaults w (e, g) = (Continue tt, (e', g')) ∧
     hostErrCache e' =
       Some (hosterrorscache.New 30 hosterrorscache.DefaultMaxHostsCount [])) ∧
  (∀ e' g', init w (e, g) = (Return None, (e', g')) →
     hostErrCache e' =
       Some (hosterrorscache.New 30 hosterrorscache.DefaultMaxHostsCount [])) ∧
  hosterrorscache.DefaultMaxHostsCount = 10000.
Proof.
  intros Hc. split; [|split; [|reflexivity]].
  - pose proof (applyRequiredDefaults_cache w None (e, g) Hc) as H.
    destruct (applyRequiredDefaults w (e, g)) as [[[]|r|] [e' g']] eqn:E.
    + eauto.
    + done.
    + exfalso. clear H. revert E. unfold applyRequiredDefaults, bind, this, when, assign, emit.
      simpl. repeat (case_match; simpl); discriminate.
  - intros e' g' Hinit.
    pose proof (init_cache w None (e, g) Hc) as H. rewrite Hinit in H. by apply H.
Qed.

Lemma default_host_error_cache_witness :
  hostErrCache (demoEngine 0 0) = None ∧
  hostErrCache (fst (snd (demoInit 0 0))) = Some (hosterrorscache.New 30 10000 []).
Proof.
  split; [reflexivity|].
  apply (proj1 (proj2 (default_host_error_cache (demoWorld ["cve-2021-0001"])
                         (demoEngine 0 0) demoGlobals eq_refl))
           (fst (snd (demoInit 0 0))) (snd (snd (demoInit 0 0)))).
  vm_compute. reflexivity.
Defined.

Lemma init_ignore_file w n :
  triple True (λ st, count isReadIgnoreFile (trace (snd st)) = n) (init w)
    (λ _ _, False)
    (λ r st, r = None →
       types.ExcludeTags (opts (fst st)) = config.Tags (ReadIgnoreFile w) ∧
       count isReadIgnoreFile (trace (snd st)) = S n).
Proof.
  unfold init, applyRequiredDefaults, processUpdateCheckResults.
  steps (λ st : St, count isReadIgnoreFile (trace (snd st)) = n)
        ltac:(simpl in *; rewrite ?count_snoc; inv_side; simpl; lia).
  step (λ (_ : unit) (st : St), count isReadIgnoreFile (trace (snd st)) = S n).
  { apply triple_emit. intros e' g' H. simpl in *. rewrite count_snoc, H. simpl. lia. }
  intros _.
  step (λ (_ : unit) (st : St),
          types.ExcludeTags (opts (fst st)) = config.Tags (ReadIgnoreFile w) ∧
          count isReadIgnoreFile (trace (snd st)) = S n).
  { apply triple_assign. intros e' g' H. simpl in *. done. }
  intros _.
  stmt (λ st : St, types.ExcludeTags (opts (fst st)) = config.Tags (ReadIgnoreFile w) ∧
                   count isReadIgnoreFile (trace (snd st)) = S n)
       ltac:(simpl in *; rewrite ?count_snoc; inv_side; simpl; lia).
Qed.

Lemma init_no_scan w n :
  triple True (λ st, count isExecuteScan (trace (snd st)) = n) (init w)
    (λ _ st, count isExecuteScan (trace (snd st)) = n)
    (λ _ st, count isExecuteScan (trace (snd st)) = n).
Proof.
  unfold init, applyRequiredDefaults, processUpdateCheckResults.
  stmt (λ st : St, count isExecuteScan (trace (snd st)) = n)
       ltac:(simpl in *; rewrite ?count_snoc; inv_side; simpl; lia).
Qed.

(** C7.  An [init] that returns without an error has set the exclude-tags
    option to exactly the tags of the ignore file, whatever the option held
    before; it has read the ignore file once and has started no scan. *)
Theorem exclude_tags_from_ignore_file (w : World) (e e' : VulmapEngine) (g g' : Globals) :
  init w (e, g) = (Return None, (e', g')) →
  types.ExcludeTags (opts e') = config.Tags (ReadIgnoreFile w) ∧
  count isReadIgnoreFile (trace g') = S (count isReadIgnoreFile (trace g)) ∧
  count isExecuteScan (trace g') = count isExecuteScan (trace g).
Proof.
  intros Hinit.
  pose proof (init_ignore_file w _ (e, g) eq_refl) as H1.
  pose proof (init_no_scan w _ (e, g) eq_refl) as H2.
  rewrite Hinit in H1, H2. simpl in *. destruct (H1 eq_refl). auto.
Qed.

Lemma exclude_tags_from_ignore_file_witness :
  types.ExcludeTags (opts (demoEngine 0 0)) = ["user-tag"] ∧
  types.ExcludeTags (opts (fst (snd (demoInit 0 0)))) = ["dos"; "fuzz"] ∧
  count isReadIgnoreFile (trace (snd (snd (demoInit 0 0)))) = 1%nat.
Proof.
  split; [reflexivity|].
  pose proof (exclude_tags_from_ignore_file (demoWorld ["cve-2021-0001"])
                (demoEngine 0 0) (fst (snd (demoInit 0 0)))
                demoGlobals (snd (snd (demoInit 0 0))))
    as H.
  destruct H as (H1 & H2 & _); [vm_compute; reflexivity|].
  split; [exact H1 | exact H2].
Defined.

Lemma trace_grows_nil {A} (l : list A) x xs : l = l ++ x :: xs → False.
Proof.
  intros H. apply (f_equal length) in H. rewrite length_app in H. simpl in H. lia.
Qed.

(** C5.  Once [ExecuteVulmapWithOpts] has loaded the template store: if the
    store holds no template and no workflow, the call returns
    [ErrNoTemplatesAvailable]; if it holds some but the input provider
    counts zero targets, the call returns [ErrNoTargetsAvailable].  In both
    cases loading the store is the last effect of the call: no scan is
    started. *)
Theorem no_templates_or_targets_no_scan (w : World) (targets : list string)
    (options : list VulmapSDKOptions) (eng eng' : VulmapEngine) (g g' : Globals)
    (r : Flow unit) (store : handle) (evs : list Event) :
  ExecuteVulmapWithOpts w targets options (eng, g) = (r, (eng', g')) →
  trace g' = trace g ++ EvStoreLoad store :: evs →
  (store_Templates w store = [] → store_Workflows w store = [] →
     r = Return (Some ErrNoTemplatesAvailable) ∧ evs = []) ∧
  (store_Templates w store ≠ [] ∨ store_Workflows w store ≠ [] →
     inputs_Count w (loadTargets w targets) = 0 →
     r = Return (Some ErrNoTargetsAvailable) ∧ evs = []).
Proof.
  unfold ExecuteVulmapWithOpts, loadTargets, bind, this. simpl.
  destruct (applyOptions _ _) as [tmpEngine|err]; simpl;
    [|intros [= <- <- <-] Htr; by apply trace_grows_nil in Htr].
  destruct (parsers_NewLoader _ _) as [workflowLoader|err]; simpl;
    [|intros [= <- <- <-] Htr; by apply trace_grows_nil in Htr].
  destruct (loader_New _ _ _ _) as [store'|err]; simpl;
    [|intros [= <- <- <-] Htr; by apply trace_grows_nil in Htr].
  intros Hrun Htr.
  assert (Hcases :
    ∃ evs', trace g' = trace g ++ EvStoreLoad store' :: evs' ∧
      (store_Templates w store' = [] → store_Workflows w store' = [] →
         r = Return (Some ErrNoTemplatesAvailable) ∧ evs' = []) ∧
      (store_Templates w store' ≠ [] ∨ store_Workflows w store' ≠ [] →
         inputs_Count w (foldl (λ p target, inputs_Set w target p)
                           (inputs.mkSimpleInputProvider []) targets) = 0 →
         r = Return (Some ErrNoTargetsAvailable) ∧ evs' = [])).
  { destruct (store_Templates w store') as [|t ts] eqn:Et;
      destruct (store_Workflows w store') as [|wf wfs] eqn:Ew; simpl in Hrun.
    - injection Hrun as <- <- <-. simpl. exists []. split; [done|].
      split; [done|]. intros [?|?]; done.
    - destruct (inputs_Count w _ =? 0) eqn:Ec; simpl in Hrun;
        injection Hrun as <- <- <-; simpl; eexists;
        (split; [by rewrite <- ?app_assoc|]); (split; [done|]);
        intros _ Hz; [done|]. rewrite Hz in Ec. done.
    - destruct (inputs_Count w _ =? 0) eqn:Ec; simpl in Hrun;
        injection Hrun as <- <- <-; simpl; eexists;
        (split; [by rewrite <- ?app_assoc|]); (split; [done|]);
        intros _ Hz; [done|]. rewrite Hz in Ec. done.
    - destruct (inputs_Count w _ =? 0) eqn:Ec; simpl in Hrun;
        injection Hrun as <- <- <-; simpl; eexists;
        (split; [by rewrite <- ?app_assoc|]); (split; [done|]);
        intros _ Hz; [done|]. rewrite Hz in Ec. done. }
  destruct Hcases as (evs' & Htr' & H1 & H2).
  rewrite Htr' in Htr. apply app_inv_head in Htr. injection Htr as <- <-. auto.
Qed.

(** With a template and a target, the scan is started and awaited. *)
Example ExecuteVulmapWithOpts_scans :
  fst (demoExecute ["cve-2021-0001"] ["https://example.com"]) = Return None ∧
  trace (snd (snd (demoExecute ["cve-2021-0001"] ["https://example.com"])))
  = [EvStoreLoad 7%nat;
     EvExecuteScan ["cve-2021-0001"]
       (inputs.mkSimpleInputProvider
          [contextargs.mkMetaInput "https://example.com" EmptyString]) false;
     EvWorkPoolWait].
Proof. vm_compute. split; reflexivity. Qed.

Lemma no_templates_or_targets_no_scan_witness :
  (fst (demoExecute [] ["https://example.com"]) = Return (Some ErrNoTemplatesAvailable)
   ∧ List.tl (trace (snd (snd (demoExecute [] ["https://example.com"])))) = []) ∧
  (fst (demoExecute ["cve-2021-0001"] []) = Return (Some ErrNoTargetsAvailable)
   ∧ List.tl (trace (snd (snd (demoExecute ["cve-2021-0001"] [])))) = []).
Proof.
  split.
  - set (run := demoExecute [] ["https://example.com"]).
    apply (proj1 (no_templates_or_targets_no_scan (demoWorld [])
                    ["https://example.com"] [] (fst (snd (demoInit 0 0)))
                    (fst (snd run)) demoGlobals (snd (snd run)) (fst run) 7%nat
                    (List.tl (trace (snd (snd run))))
                    ltac:(vm_compute; reflexivity) ltac:(vm_compute; reflexivity)));
      reflexivity.
  - set (run := demoExecute ["cve-2021-0001"] []).
    apply (proj2 (no_templates_or_targets_no_scan (demoWorld ["cve-2021-0001"])
                    [] [] (fst (snd (demoInit 0 0)))
                    (fst (snd run)) demoGlobals (snd (snd run)) (fst run) 7%nat
                    (List.tl (trace (snd (snd run))))
                    ltac:(vm_compute; reflexivity) ltac:(vm_compute; reflexivity)));
      [left; discriminate | reflexivity].
Defined.

End vulmap_facts.

(** ** The LDAP helper *)
Module ldap_facts.
Import ldap.

(** C10.  For a host that the network policy does not allow, [IsLdap]
    returns [(false, ErrHostDenied)] and [CollectLdapMetadata], called with
    that host as its domain, returns the zero [LDAPMetadata] and
    [ErrHostDenied]; neither performs any network effect, so no dial is
    attempted. *)
Theorem denied_host_is_not_dialed (w : World) (host controller : string) (port : Z)
    (tr : list Event) :
  IsHostAllowed w host = false →
  IsLdap w host port tr = ((false, Some (ErrHostDenied host)), tr) ∧
  CollectLdapMetadata w host controller tr
    = ((zeroLDAPMetadata, Some (ErrHostDenied host)), tr).
Proof.
  intros Hdenied. unfold IsLdap, CollectLdapMetadata. rewrite Hdenied. simpl. done.
Qed.

Lemma denied_host_is_not_dialed_witness :
  IsHostAllowed demoWorld "169.254.169.254" = false ∧
  IsLdap demoWorld "169.254.169.254" 389 []
    = ((false, Some (ErrHostDenied "169.254.169.254")), []) ∧
  CollectLdapMetadata demoWorld "169.254.169.254" "dc.corp.example" []
    = ((zeroLDAPMetadata, Some (ErrHostDenied "169.254.169.254")), []).
Proof.
  split; [reflexivity|].
  apply (denied_host_is_not_dialed demoWorld "169.254.169.254" "dc.corp.example" 389 []).
  reflexivity.
Defined.

(** An allowed host is dialed. *)
Lemma IsLdap_allowed_dials w host port tr :
  IsHostAllowed w host = true →
  ∃ evs, snd (IsLdap w host port tr) = tr ++ EvDial "tcp" (hostPort host port) :: evs.
Proof.
  intros Hallowed. unfold IsLdap, bind, dial, emit, ret. rewrite Hallowed. simpl.
  destruct (Dial w _ _); simpl.
  - eexists. by rewrite <- !app_assoc.
  - by eexists.
Qed.

(** [CollectLdapMetadata] checks its domain against the policy and dials
    its controller: the controller is dialed whether the policy allows it
    or not. *)
Lemma CollectLdapMetadata_dials_controller w domain controller tr :
  IsHostAllowed w domain = true →
  ∃ evs, snd (CollectLdapMetadata w domain controller tr)
         = tr ++ EvDial "tcp" (hostPort controller 389) :: evs.
Proof.
  intros Hallowed. unfold CollectLdapMetadata, newLdapSession, bind, dial, close, emit, ret.
  rewrite Hallowed. simpl.
  destruct (Dial w _ _); simpl.
  - eexists. by rewrite <- !app_assoc.
  - by eexists.
Qed.

Example CollectLdapMetadata_demo :
  CollectLdapMetadata demoWorld "corp.example" "169.254.169.254" []
  = ((mkLDAPMetadata "dc=corp,dc=example" "corp.example" "dc=corp,dc=example"
        EmptyString EmptyString EmptyString EmptyString, None),
     [EvDial "tcp" "169.254.169.254:389"; EvStart 1%nat; EvClose 1%nat]).
Proof. vm_compute. reflexivity. Qed.

Example parseDC_demo :
  parseDC demoWorld "dc=corp,dc=example,dc=com" = "corp.example.com".
Proof. vm_compute. reflexivity. Qed.

End ldap_facts.

(** ** Struct formats *)
Module structs_facts.
Import structs.

Example build_demo :
  buildFormatSliceFromStringFormat (runes ">2H10sI4")
  = map runes [">"; "2H"; "10s"; "I"; "4"].
Proof. vm_compute. reflexivity. Qed.

(** The loop keeps: the pieces so far, then [temp], then the runes still to
    read, are the format. *)
Lemma buildStep_concat format : ∀ formats temp,
  concat (foldl buildStep (formats, temp) format).1
    ++ (foldl buildStep (formats, temp) format).2
  = concat formats ++ temp ++ format.
Proof.
  induction format as [|c format IH]; intros formats temp; simpl.
  - by rewrite app_nil_r.
  - destruct (isDigit c).
    + rewrite IH. by rewrite <- !app_assoc.
    + destruct temp as [|d temp]; rewrite IH, concat_app; simpl;
        rewrite ?app_nil_r, <- ?app_assoc; simpl; by rewrite <- ?app_assoc.
Qed.

(** X1.  The pieces of a format, put together again, are the format. *)
Theorem build_concat (format : list rune) :
  concat (buildFormatSliceFromStringFormat format) = format.
Proof.
  unfold buildFormatSliceFromStringFormat.
  pose proof (buildStep_concat format [] []) as H.
  destruct (foldl buildStep ([], []) format) as [formats temp]. simpl in H.
  destruct temp as [|d temp].
  - by rewrite app_nil_r in H.
  - rewrite concat_app. simpl. by rewrite app_nil_r.
Qed.

Lemma isCode_snoc ds c :
  isCode (ds ++ [c]) = forallb isDigit ds && negb (isDigit c).
Proof.
  induction ds as [|d ds IH]; [done|].
  change ((d :: ds) ++ [c]) with (d :: (ds ++ [c])).
  destruct (ds ++ [c]) as [|r l] eqn:E; [by destruct ds|].
  change (isCode (d :: r :: l)) with (isDigit d && isCode (r :: l)).
  rewrite IH. simpl. by rewrite andb_assoc.
Qed.

Lemma isCode_inv p :
  isCode p = true →
  ∃ ds c, p = ds ++ [c] ∧ forallb isDigit ds = true ∧ isDigit c = false.
Proof.
  induction p as [|d p IH]; [done|]. destruct p as [|d' p].
  - simpl. intros H%negb_true_iff. by exists [], d.
  - intros [Hd Hp]%andb_true_iff. destruct (IH Hp) as (ds & c & -> & Hds & Hc).
    exists (d :: ds), c. simpl. by rewrite Hd, Hds.
Qed.

(** What the loop keeps: every piece so far is a code, and [temp] holds
    digits only. *)
Lemma buildStep_shape format : ∀ formats temp,
  forallb isCode formats = true → forallb isDigit temp = true →
  forallb isCode (foldl buildStep (formats, temp) format).1 = true ∧
  forallb isDigit (foldl buildStep (formats, temp) format).2 = true.
Proof.
  induction format as [|c format IH]; intros formats temp Hf Ht; simpl; [done|].
  destruct (isDigit c) eqn:Ec.
  - apply IH; [done|]. rewrite forallb_app, Ht. simpl. by rewrite Ec.
  - destruct temp as [|d temp]; apply IH; try done;
      rewrite forallb_app, Hf; cbn [forallb andb]; rewrite andb_true_r.
    + simpl. by rewrite Ec.
    + rewrite isCode_snoc, Ht. by rewrite Ec.
Qed.

(** X2.  Every piece but the last is a code, digits then one other rune; the
    last piece may be a bare count, when the format ends in digits.  No
    piece is empty. *)
Theorem build_shape (format : list rune) :
  ∃ codes rest,
    buildFormatSliceFromStringFormat format = codes ++ rest ∧
    forallb isCode codes = true ∧
    (rest = [] ∨ ∃ n, rest = [n] ∧ isCount n = true).
Proof.
  unfold buildFormatSliceFromStringFormat.
  destruct (buildStep_shape format [] [] eq_refl eq_refl) as [Hf Ht].
  destruct (foldl buildStep ([], []) format) as [formats temp]. simpl in *.
  destruct temp as [|d temp].
  - exists formats, []. rewrite app_nil_r. auto.
  - exists formats, [d :: temp]. split; [done|]. split; [done|]. right. eauto.
Qed.

Lemma buildStep_digits ds : ∀ formats temp,
  forallb isDigit ds = true →
  foldl buildStep (formats, temp) ds = (formats, temp ++ ds).
Proof.
  induction ds as [|d ds IH]; intros formats temp H; simpl.
  - by rewrite app_nil_r.
  - apply andb_true_iff in H as [Hd Hds]. rewrite Hd, IH by done.
    by rewrite <- app_assoc.
Qed.

Lemma buildStep_code p formats :
  isCode p = true → foldl buildStep (formats, []) p = (formats ++ [p], []).
Proof.
  intros (ds & c & -> & Hds & Hc)%isCode_inv.
  rewrite foldl_app, buildStep_digits by done. simpl. rewrite Hc.
  by destruct ds.
Qed.

Lemma buildStep_codes codes : ∀ formats,
  forallb isCode codes = true →
  foldl buildStep (formats, []) (concat codes) = (formats ++ codes, []).
Proof.
  induction codes as [|p codes IH]; intros formats H; simpl.
  - by rewrite app_nil_r.
  - apply andb_true_iff in H as [Hp Hcodes].
    rewrite foldl_app, buildStep_code, IH by done. by rewrite <- app_assoc.
Qed.

(** X3.  Splitting is the inverse of joining on well-formed pieces: codes,
    and possibly a bare count at the end, put together and split again
    come back as they were. *)
Theorem build_of_concat (codes rest : list (list rune)) :
  forallb isCode codes = true →
  (rest = [] ∨ ∃ n, rest = [n] ∧ isCount n = true) →
  buildFormatSliceFromStringFormat (concat (codes ++ rest)) = codes ++ rest.
Proof.
  intros Hcodes Hrest. unfold buildFormatSliceFromStringFormat.
  rewrite concat_app, foldl_app, buildStep_codes by done. simpl.
  destruct Hrest as [->|(n & -> & Hn)]; simpl; [by rewrite app_nil_r|].
  rewrite app_nil_r. destruct n as [|d n]; [done|].
  rewrite (buildStep_digits (d :: n) codes []) by done. done.
Qed.

Lemma build_of_concat_witness :
  buildFormatSliceFromStringFormat (concat (map runes ["2H"; "10s"; "I"] ++ [runes "4"]))
  = map runes ["2H"; "10s"; "I"] ++ [runes "4"].
Proof.
  apply (build_of_concat (map runes ["2H"; "10s"; "I"]) [runes "4"]).
  - reflexivity.
  - right. exists (runes "4"). split; reflexivity.
Defined.

Lemma packStep_length args j f : length (packStep args j f) = length args.
Proof.
  unfold packStep. destruct (isIntegerCode f); [|done].
  destruct (args !! j) as [[]|]; by rewrite ?length_insert.
Qed.

Lemma packStep_lookup_ne args j f i :
  i ≠ j → packStep args j f !! i = args !! i.
Proof.
  intros Hne. unfold packStep. destruct (isIntegerCode f); [|done].
  destruct (args !! j) as [[]|]; try done. by rewrite list_lookup_insert_ne.
Qed.

Lemma packLoop_lookup format : ∀ j args i,
  packLoop j format args !! i =
    match args !! i with
    | Some (VInt64 z) =>
        if decide (j ≤ i)%nat then
          match format !! (i - j)%nat with
          | Some f => if isIntegerCode f then Some (VInt z) else Some (VInt64 z)
          | None => Some (VInt64 z)
          end
        else Some (VInt64 z)
    | o => o
    end.
Proof.
  induction format as [|f rest IH]; intros j args i; simpl.
  - destruct (args !! i) as [[]|]; try done. by destruct (decide _).
  - destruct (Nat.leb_spec (length args) j) as [Hlen|Hlen].
    + destruct (args !! i) as [[]|] eqn:E; try done.
      apply lookup_lt_Some in E. destruct (decide _); [lia|done].
    + rewrite IH. destruct (decide (i = j)) as [->|Hne].
      * replace (j - j)%nat with 0%nat by lia. simpl.
        unfold packStep. destruct (isIntegerCode f) eqn:Ef.
        -- destruct (args !! j) as [[]|] eqn:E; rewrite ?E; try done.
           rewrite list_lookup_insert_eq by done.
           by destruct (decide (j ≤ j)%nat); [|lia].
        -- destruct (args !! j) as [[]|] eqn:E; try done.
           destruct (decide (S j ≤ j)%nat); [lia|].
           by destruct (decide (j ≤ j)%nat); [|lia].
      * rewrite packStep_lookup_ne by done.
        destruct (args !! i) as [[]|]; try done.
        destruct (decide (S j ≤ i)%nat), (decide (j ≤ i)%nat); try lia; try done.
        by replace (i - j)%nat with (S (i - S j)) by lia.
Qed.

Lemma packLoop_length format : ∀ j args, length (packLoop j format args) = length args.
Proof.
  induction format as [|f rest IH]; intros j args; simpl; [done|].
  destruct (length args <=? j)%nat; [done|]. by rewrite IH, packStep_length.
Qed.

Lemma isIntegerCode_single f : isIntegerCode f = true → length f = 1%nat.
Proof.
  unfold isIntegerCode. intros H%bool_decide_eq_true.
  repeat (apply elem_of_cons in H as [->|H]; [reflexivity|]).
  by apply elem_of_nil in H.
Qed.

(** X4.  What [Pack] hands to the packer.  The arguments keep their number
    and order; an [int64] becomes the [int] of the same value exactly when
    the piece of the format at its position is one of the ten one-letter
    integer codes, so not under a code with a count such as [2H]; every
    other argument, and every argument past the end of the format, is
    passed as it is. *)
Theorem Pack_arguments {R : Type} (gostruct_Pack : list (list rune) → list Value → R)
    (formatStr : list rune) (msg : Value) :
  let args := match msg with VList v => v | v => [v] end in
  let format := buildFormatSliceFromStringFormat formatStr in
  ∃ args',
    Pack gostruct_Pack formatStr msg = gostruct_Pack format args' ∧
    length args' = length args ∧
    (∀ i, args' !! i =
       match args !! i, format !! i with
       | Some (VInt64 z), Some f =>
           if isIntegerCode f then Some (VInt z) else Some (VInt64 z)
       | o, _ => o
       end) ∧
    (∀ f, isIntegerCode f = true → length f = 1%nat).
Proof.
  intros args format. exists (packLoop 0 format args).
  split; [by destruct msg|]. split; [apply packLoop_length|].
  split; [|apply isIntegerCode_single].
  intros i. rewrite packLoop_lookup. replace (i - 0)%nat with i by lia.
  by destruct (args !! i) as [[]|].
Qed.

Example Pack_demo :
  Pack (λ format args, (format, args)) (runes "H2Hq")
    (VList [VInt64 1; VInt64 2; VInt64 3; VInt64 4])
  = (map runes ["H"; "2H"; "q"], [VInt 1; VInt64 2; VInt 3; VInt64 4]).
Proof. vm_compute. reflexivity. Qed.

End structs_facts.

(** ** The execution context, continued *)
Module contextargs_more.
Import contextargs contextargs_facts contextargs_port.

(** X5.  [Has] is the second result of [Get], on every context and key. *)
Theorem Has_is_Get_ok (c : Context) (k : string) (h : Store) :
  eval (Has c k) h = snd <$> eval (Get c k) h.
Proof.
  unfold eval. destruct (maps h !! args c) as [s|] eqn:Hs.
  - rewrite (Has_run _ _ _ _ Hs), (Get_run _ _ _ _ Hs). simpl.
    unfold SyncLockMap_Has, SyncLockMap_Get.
    destruct (Map s !! k); simpl; f_equal; case_bool_decide as Hd; try done;
      first [ exfalso; apply Hd; eauto | by destruct Hd ].
  - unfold Has, Get, hasArgs, bind, loadMap. by rewrite Hs.
Qed.

(** X6.  [GetAll] agrees with [HasArgs] and [Get].  It returns nil exactly
    when [HasArgs] is false, and then every [Get] finds nothing; otherwise
    it returns a map in which a key has the value that [Get] returns. *)
Theorem GetAll_agrees (c : Context) (h : Store) :
  match eval (GetAll c) h with
  | None => eval (HasArgs c) h = None
  | Some None =>
      eval (HasArgs c) h = Some false ∧
      ∀ k, eval (Get c k) h = Some (VNil, false)
  | Some (Some m) =>
      eval (HasArgs c) h = Some true ∧
      ∀ k, eval (Get c k) h
           = Some (match m !! k with Some v => (v, true) | None => (VNil, false) end)
  end.
Proof.
  unfold eval. destruct (maps h !! args c) as [s|] eqn:Hs.
  - unfold GetAll, HasArgs, hasArgs, bind, loadMap, ret. rewrite Hs. simpl.
    destruct (SyncLockMap_IsEmpty s) eqn:E; simpl.
    + split; [done|]. intros k. rewrite (Get_run _ _ _ _ Hs). simpl.
      by rewrite SyncLockMap_Get_empty.
    + rewrite Hs. simpl. split; [done|]. intros k.
      by rewrite (Get_run _ _ _ _ Hs).
  - unfold GetAll, HasArgs, hasArgs, bind, loadMap. by rewrite Hs.
Qed.

Lemma Get_updMap_other c h s s' k2 :
  maps h !! args c = Some s → Map s' !! k2 = Map s !! k2 →
  eval (Get c k2) (updMap h (args c) s') = eval (Get c k2) h.
Proof.
  intros Hs Hk. unfold eval.
  rewrite (Get_run _ _ _ _ (updMap_lookup _ _ _)), (Get_run _ _ _ _ Hs). simpl.
  unfold SyncLockMap_Get. by rewrite Hk.
Qed.

(** X7.  A write under one key is a write to nothing else.  After a
    [Set], a [Merge], or an [Add] that does not append to a stored list of
    strings, the cookie jars and the targets of the store are as before,
    the key-value store of every other context is as before, and every key
    the write does not name reads as before.  The [Add] that appends in
    place is left out: it may write into a backing array that another
    entry shares, which the model does not represent. *)
Theorem write_frame (c : Context) (op : Op) (h h' : Store) :
  appendsInPlace c op h = false →
  apply_op c op h = Some (tt, h') →
  jars h' = jars h ∧ metas h' = metas h ∧
  (∀ l, l ≠ args c → maps h' !! l = maps h !! l) ∧
  (∀ k2, writes k2 op = false → eval (Get c k2) h' = eval (Get c k2) h).
Proof.
  intros _ Hrun.
  destruct (maps h !! args c) as [s|] eqn:Hs.
  2:{ destruct op; simpl in Hrun; unfold Set_, Add, Merge, bind, loadMap in Hrun;
      by rewrite Hs in Hrun. }
  assert (Hh : ∃ s', h' = updMap h (args c) s' ∧
                     ∀ k2, writes k2 op = false → Map s' !! k2 = Map s !! k2).
  { destruct op as [k v|k v|n]; simpl in *.
    - rewrite (Set_run _ _ _ _ _ Hs) in Hrun. injection Hrun as <-.
      eexists. split; [done|]. intros k2 Hw%bool_decide_eq_false.
      by apply SyncLockMap_Set_other.
    - rewrite (Add_run _ _ _ _ _ Hs) in Hrun. injection Hrun as <-.
      eexists. split; [done|]. intros k2 Hw%bool_decide_eq_false.
      by apply Add_result_other.
    - rewrite (Merge_run _ _ _ _ Hs) in Hrun. injection Hrun as <-.
      eexists. split; [done|]. intros k2 Hw%bool_decide_eq_false.
      apply SyncLockMap_Merge_other. destruct (n !! k2) eqn:E; [|done].
      exfalso. apply Hw. eauto. }
  destruct Hh as (s' & -> & Hother). simpl.
  split; [done|]. split; [done|]. split.
  - intros l Hl. by rewrite lookup_insert_ne.
  - intros k2 Hw. apply (Get_updMap_other _ _ s); auto.
Qed.

Lemma write_frame_witness :
  appendsInPlace demoCtx (OpAdd "port" (VInt 443)) demoStore = false ∧
  apply_op demoCtx (OpAdd "port" (VInt 443)) demoStore
    = Some (tt, updMap demoStore 1%positive
                  (mkSyncLockMap {["port" := VSlice [VInt 443; VInt 443]]} false)) ∧
  eval (Get demoCtx "user")
       (updMap demoStore 1%positive
          (mkSyncLockMap {["port" := VSlice [VInt 443; VInt 443]]} false))
  = eval (Get demoCtx "user") demoStore.
Proof.
  split; [reflexivity|]. split; [vm_compute; reflexivity|].
  apply (write_frame demoCtx (OpAdd "port" (VInt 443)) demoStore);
    vm_compute; reflexivity.
Defined.

Lemma Get_Some_inv c h k old :
  live h c = true → eval (Get c k) h = Some (old, true) →
  ∃ s, maps h !! args c = Some s ∧ ReadOnly s = false ∧ Map s !! k = Some old.
Proof.
  intros (m & j & s & Hm & Hj & Hs & Hro)%live_inv. unfold eval.
  rewrite (Get_run _ _ _ _ Hs). simpl. unfold SyncLockMap_Get.
  destruct (Map s !! k) eqn:E; intros [= <-]. eauto.
Qed.

(** What [Add] stores under a key that holds [old]. *)
Lemma Add_existing c h k old v :
  live h c = true → eval (Get c k) h = Some (old, true) →
  ∃ h', Add c k v h = Some (tt, h') ∧ live h' c = true ∧
    eval (Get c k) h' =
      Some (match v, old with
            | VString b, VString a => VStrings [a; b]
            | VStrings l2, VStrings l1 => VStrings (l1 ++ l2)
            | VString _, _ | VStrings _, _ => old
            | _, _ => VSlice [old; v]
            end, true).
Proof.
  intros Hl Hget. destruct (Get_Some_inv _ _ _ _ Hl Hget) as (s & Hs & Hro & Hk).
  eexists. split; [apply Add_run, Hs|]. split.
  { apply (apply_op_live c (OpAdd k v) h); [done|]. simpl. apply Add_run, Hs. }
  unfold eval. rewrite (Get_run _ _ _ _ (updMap_lookup _ _ _)). simpl. f_equal.
  assert (HG : SyncLockMap_Get k s = (old, true)).
  { unfold SyncLockMap_Get. by rewrite Hk. }
  unfold Add_result. rewrite HG. simpl.
  destruct v, old; simpl; rewrite ?HG; try done;
    unfold SyncLockMap_Get, SyncLockMap_Set; rewrite Hro; simpl;
    by rewrite lookup_insert_eq.
Qed.

(** X8.  [Add] under a key that is set.  A string added to a string gives
    the two-element list; a list of strings is appended to a list of
    strings; a string added to anything that is no string, and a list of
    strings added to anything that is no list of strings, is dropped: the
    key keeps its value; any other value [v] replaces the old value by the
    pair of the old value and [v]. *)
Theorem Add_to_existing_key (c : Context) (h : Store) (k : string) (old v : Value) :
  live h c = true → eval (Get c k) h = Some (old, true) →
  ∃ h', Add c k v h = Some (tt, h') ∧
    (∀ a b, old = VString a → v = VString b →
       eval (Get c k) h' = Some (VStrings [a; b], true)) ∧
    (∀ l1 l2, old = VStrings l1 → v = VStrings l2 →
       eval (Get c k) h' = Some (VStrings (l1 ++ l2), true)) ∧
    (∀ b, v = VString b → (∀ a, old ≠ VString a) →
       eval (Get c k) h' = Some (old, true)) ∧
    (∀ l2, v = VStrings l2 → (∀ l1, old ≠ VStrings l1) →
       eval (Get c k) h' = Some (old, true)) ∧
    (is_stringy v = false → eval (Get c k) h' = Some (VSlice [old; v], true)).
Proof.
  intros Hl Hget. destruct (Add_existing c h k old v Hl Hget) as (h' & Hadd & _ & Hres).
  exists h'. split; [done|]. rewrite Hres. repeat split.
  - by intros a b -> ->.
  - by intros l1 l2 -> ->.
  - intros b -> Hne. destruct old; try done. by destruct (Hne s).
  - intros l2 -> Hne. destruct old; try done. by destruct (Hne l).
  - intros Hv. by destruct v, old.
Qed.

Lemma Add_to_existing_key_witness :
  live (updMap demoStore 1%positive (mkSyncLockMap {["tag" := VStrings ["a"; "b"]]} false))
       demoCtx = true ∧
  ∃ h', Add demoCtx "tag" (VString "c")
          (updMap demoStore 1%positive
             (mkSyncLockMap {["tag" := VStrings ["a"; "b"]]} false)) = Some (tt, h') ∧
        eval (Get demoCtx "tag") h' = Some (VStrings ["a"; "b"], true).
Proof.
  split; [vm_compute; reflexivity|].
  destruct (Add_to_existing_key demoCtx
              (updMap demoStore 1%positive
                 (mkSyncLockMap {["tag" := VStrings ["a"; "b"]]} false))
              "tag" (VStrings ["a"; "b"]) (VString "c"))
    as (h' & Hadd & _ & _ & Hdrop & _); [vm_compute; reflexivity..|].
  exists h'. split; [exact Hadd|]. by apply (Hdrop "c").
Defined.

(** X9.  Strings added one after the other under a fresh key: the first is
    stored as a string, the second makes the list of the two, and every
    further string is dropped. *)
Theorem Add_strings_keeps_two (c : Context) (h : Store) (k a b : string)
    (more : list string) :
  live h c = true → eval (Has c k) h = Some false →
  ∃ h', run_ops c (OpAdd k (VString a) :: OpAdd k (VString b)
                     :: map (λ x, OpAdd k (VString x)) more) h = Some (tt, h') ∧
        eval (Get c k) h' = Some (VStrings [a; b], true).
Proof.
  intros Hl Hhas.
  destruct (Add_fresh c h k (VString a) Hl Hhas) as (h1 & Ha & Hg1). simpl in Hg1.
  assert (Hl1 : live h1 c = true) by (by apply (apply_op_live c (OpAdd k (VString a)) h)).
  destruct (Add_existing c h1 k (VString a) (VString b) Hl1 Hg1) as (h2 & Hb & Hl2 & Hg2).
  assert (Hrest : ∀ more h2, live h2 c = true →
            eval (Get c k) h2 = Some (VStrings [a; b], true) →
            ∃ h', run_ops c (map (λ x, OpAdd k (VString x)) more) h2 = Some (tt, h') ∧
                  eval (Get c k) h' = Some (VStrings [a; b], true)).
  { clear. induction more as [|x more IH]; intros h2 Hl2 Hg2; simpl.
    - by exists h2.
    - destruct (Add_existing c h2 k (VStrings [a; b]) (VString x) Hl2 Hg2)
        as (h3 & Hx & Hl3 & Hg3).
      destruct (IH h3 Hl3 Hg3) as (h' & Hrun & Hg).
      exists h'. split; [|done]. unfold bind. by rewrite Hx. }
  destruct (Hrest more h2 Hl2 Hg2) as (h' & Hrun & Hg).
  exists h'. split; [|done]. simpl. unfold bind. by rewrite Ha, Hb.
Qed.

Lemma Add_strings_keeps_two_witness :
  live demoStore demoCtx = true ∧
  eval (Has demoCtx "tag") demoStore = Some false ∧
  ∃ h', run_ops demoCtx
          (OpAdd "tag" (VString "a") :: OpAdd "tag" (VString "b")
             :: map (λ x, OpAdd "tag" (VString x)) ["c"; "d"]) demoStore = Some (tt, h') ∧
        eval (Get demoCtx "tag") h' = Some (VStrings ["a"; "b"], true).
Proof.
  split; [vm_compute; reflexivity|]. split; [vm_compute; reflexivity|].
  apply (Add_strings_keeps_two demoCtx demoStore "tag" "a" "b" ["c"; "d"]);
    vm_compute; reflexivity.
Defined.

(** X10.  A clone starts with the keys and values of the original: right
    after [Clone], every [Get] on the clone returns what it returns on the
    original, which is what it returned before. *)
Theorem Clone_copies_args (c c' : Context) (h h1 : Store) :
  Clone c h = Some (c', h1) →
  ∀ k, ∃ r, eval (Get c k) h = Some r ∧ eval (Get c k) h1 = Some r
            ∧ eval (Get c' k) h1 = Some r.
Proof.
  intros (m & s & Hm & Hs & -> & ->)%Clone_inv k.
  pose proof (fresh_loc_ne _ _ _ Hs) as Hne.
  exists (SyncLockMap_Get k s). unfold eval. split; [|split].
  - by rewrite (Get_run _ _ _ _ Hs).
  - erewrite Get_run; [done|]. simpl. by rewrite lookup_insert_ne.
  - erewrite (Get_run (mkContext _ _ _)); [|simpl; apply lookup_insert_eq]. done.
Qed.

Lemma Clone_copies_args_witness :
  Clone demoCtx demoStore = Some (demoClone, demoStore1) ∧
  ∀ k, ∃ r, eval (Get demoCtx k) demoStore = Some r
            ∧ eval (Get demoCtx k) demoStore1 = Some r
            ∧ eval (Get demoClone k) demoStore1 = Some r.
Proof.
  split; [vm_compute; reflexivity|].
  apply (Clone_copies_args demoCtx demoClone demoStore demoStore1).
  vm_compute; reflexivity.
Defined.

(** X11.  [Merge] on a live context: a key of the merged map reads as the
    merged map has it, whatever it held; every other key reads as
    before. *)
Theorem Merge_then_Get (c : Context) (h : Store) (n : gmap string Value) :
  live h c = true →
  ∃ h', Merge c n h = Some (tt, h') ∧
    ∀ k, eval (Get c k) h' =
           match n !! k with
           | Some v => Some (v, true)
           | None => eval (Get c k) h
           end.
Proof.
  intros (m & j & s & Hm & Hj & Hs & Hro)%live_inv.
  eexists. split; [apply Merge_run, Hs|]. intros k. unfold eval.
  rewrite (Get_run _ _ _ _ (updMap_lookup _ _ _)), (Get_run _ _ _ _ Hs). simpl.
  unfold SyncLockMap_Merge, SyncLockMap_Get. rewrite Hro. simpl.
  rewrite lookup_union. destruct (n !! k), (Map s !! k); done.
Qed.

Lemma Merge_then_Get_witness :
  live demoStore demoCtx = true ∧
  ∃ h', Merge demoCtx {["user" := VString "admin"]} demoStore = Some (tt, h') ∧
    ∀ k, eval (Get demoCtx k) h' =
           match ({["user" := VString "admin"]} : gmap string Value) !! k with
           | Some v => Some (v, true)
           | None => eval (Get demoCtx k) demoStore
           end.
Proof.
  split; [vm_compute; reflexivity|].
  apply (Merge_then_Get demoCtx demoStore). vm_compute; reflexivity.
Defined.

(** *** [UseNetworkPort] *)

Example UseNetworkPort_demo :
  (* 8080 is a reserved port: it is replaced *)
  (let* _ := UseNetworkPort demoLib demoCtx "22" EmptyString in
   Port demoLib demoCtx) demoPortStore
    = Some ("22", mkStore {[1%positive := mkMetaInput "example.com:22" EmptyString]}
                    (jars demoPortStore) (maps demoPortStore))
  (* with its own list of ports to exclude, 8080 is kept *)
  ∧ UseNetworkPort demoLib demoCtx "22" "80,443,80" demoPortStore
    = Some (None, demoPortStore)
  ∧ ignorePorts "80,443,80" = ["80"; "443"].
Proof. vm_compute. repeat split; reflexivity. Qed.

(** X12.  When [UseNetworkPort] leaves the target alone.  With an empty
    template port it returns nil and touches nothing, whatever the context
    holds; when the target does not parse it returns the parser's error
    and touches nothing; when the target has a port of its own that is not
    among the ports to replace, it returns nil and touches nothing. *)
Theorem UseNetworkPort_leaves_target (lib : Lib) (ctx : Context)
    (port excludePorts : string) (h : Store) (mi : MetaInput) :
  metas h !! ctxMetaInput ctx = Some mi →
  UseNetworkPort lib ctx EmptyString excludePorts h = Some (None, h) ∧
  (∀ err, port ≠ EmptyString → Parse lib (Input mi) = inr err →
     UseNetworkPort lib ctx port excludePorts h = Some (Some err, h)) ∧
  (∀ target, Parse lib (Input mi) = inl target →
     URL_Port lib target ≠ EmptyString →
     EqualFoldAny lib (URL_Port lib target) (ignorePorts excludePorts) = false →
     UseNetworkPort lib ctx port excludePorts h = Some (None, h)).
Proof.
  intros Hmi. split; [done|]. split.
  - intros err Hport Hparse. unfold UseNetworkPort.
    rewrite (proj2 (String.eqb_neq _ _) Hport).
    unfold bind, loadMeta. rewrite Hmi. simpl. by rewrite Hparse.
  - intros target Hparse Hown Hnot. unfold UseNetworkPort.
    destruct (String.eqb port EmptyString); [done|].
    unfold bind, loadMeta. rewrite Hmi. simpl. rewrite Hparse.
    by rewrite (proj2 (String.eqb_neq _ _) Hown), Hnot.
Qed.

Lemma UseNetworkPort_leaves_target_witness :
  metas demoPortStore !! ctxMetaInput demoCtx
    = Some (mkMetaInput "example.com:8080" EmptyString) ∧
  UseNetworkPort demoLib demoCtx "22" "80,443" demoPortStore = Some (None, demoPortStore).
Proof.
  split; [reflexivity|].
  apply (proj2 (proj2 (UseNetworkPort_leaves_target demoLib demoCtx "22" "80,443"
                         demoPortStore _ eq_refl)) ("example.com", "8080"));
    [reflexivity | discriminate | reflexivity].
Defined.

(** X13.  When [UseNetworkPort] replaces the port.  If the target parses and
    has no port, or a port that is one of the ports to replace, the
    context's target becomes the host of the parsed target with the
    template port; its [CustomIP], every other target, the cookie jars and
    the key-value stores stay as they are, and the result is nil. *)
Theorem UseNetworkPort_replaces_port (lib : Lib) (ctx : Context)
    (port excludePorts : string) (h : Store) (mi : MetaInput) (target : URL lib) :
  metas h !! ctxMetaInput ctx = Some mi →
  port ≠ EmptyString →
  Parse lib (Input mi) = inl target →
  URL_Port lib target = EmptyString
  ∨ EqualFoldAny lib (URL_Port lib target) (ignorePorts excludePorts) = true →
  ∃ h', UseNetworkPort lib ctx port excludePorts h = Some (None, h') ∧
    metas h' !! ctxMetaInput ctx
      = Some (mkMetaInput (Host lib (UpdatePort lib port target)) (CustomIP mi)) ∧
    (∀ l, l ≠ ctxMetaInput ctx → metas h' !! l = metas h !! l) ∧
    jars h' = jars h ∧ maps h' = maps h.
Proof.
  intros Hmi Hport Hparse Hrepl. unfold UseNetworkPort.
  rewrite (proj2 (String.eqb_neq _ _) Hport).
  unfold bind, loadMeta, storeMeta, ret. rewrite Hmi. simpl. rewrite Hparse.
  assert (Hc : String.eqb (URL_Port lib target) EmptyString
               || EqualFoldAny lib (URL_Port lib target) (ignorePorts excludePorts) = true).
  { destruct Hrepl as [Hr | Hr]; rewrite Hr; [done|]. by rewrite orb_true_r. }
  rewrite Hc, Hmi. simpl. eexists. split; [done|]. simpl.
  split; [apply lookup_insert_eq|]. split; [|done].
  intros l Hl. by rewrite lookup_insert_ne.
Qed.

Lemma UseNetworkPort_replaces_port_witness :
  metas demoPortStore !! ctxMetaInput demoCtx
    = Some (mkMetaInput "example.com:8080" EmptyString) ∧
  ∃ h', UseNetworkPort demoLib demoCtx "22" EmptyString demoPortStore = Some (None, h') ∧
    metas h' !! ctxMetaInput demoCtx = Some (mkMetaInput "example.com:22" EmptyString) ∧
    (∀ l, l ≠ ctxMetaInput demoCtx → metas h' !! l = metas demoPortStore !! l) ∧
    jars h' = jars demoPortStore ∧ maps h' = maps demoPortStore.
Proof.
  split; [reflexivity|].
  apply (UseNetworkPort_replaces_port demoLib demoCtx "22" EmptyString demoPortStore
           (mkMetaInput "example.com:8080" EmptyString) ("example.com", "8080"));
    [reflexivity | discriminate | reflexivity | right; reflexivity].
Defined.

End contextargs_more.

(** ** The LDAP helper, continued *)
Module ldap_more.
Import ldap ldap_conns.

(** *** [parseDC] *)

Lemma Split_not_nil sep s : Split sep s ≠ [].
Proof.
  destruct s as [|c s]; simpl; [done|].
  destruct (Ascii.eqb c sep); [done|]. by destruct (Split sep s).
Qed.

Lemma Split_noComma p :
  noComma p = true → Split ","%char p = [p].
Proof.
  induction p as [|c p IH]; [done|]. unfold noComma. simpl.
  intros [Hc Hp]%andb_true_iff. apply negb_true_iff in Hc. rewrite Hc.
  by rewrite (IH Hp).
Qed.

Lemma Split_noComma_app p rest :
  noComma p = true →
  Split ","%char (p +:+ "," +:+ rest) = p :: Split ","%char rest.
Proof.
  induction p as [|c p IH]; [done|]. unfold noComma. simpl.
  intros [Hc Hp]%andb_true_iff. apply negb_true_iff in Hc. rewrite Hc.
  by rewrite (IH Hp).
Qed.

Lemma Split_Join parts :
  parts ≠ [] → forallb noComma parts = true →
  Split ","%char (Join parts ",") = parts.
Proof.
  unfold Join. induction parts as [|p parts IH]; [done|]. intros _ Hall.
  apply andb_true_iff in Hall as [Hp Hparts]. destruct parts as [|q parts].
  - simpl. by apply Split_noComma.
  - change (String.concat "," (p :: q :: parts))
      with (p +:+ "," +:+ String.concat "," (q :: parts)).
    rewrite Split_noComma_app by done. by rewrite IH.
Qed.

Lemma TrimPrefix_dc label : TrimPrefix ("dc=" +:+ label) "dc=" = label.
Proof. reflexivity. Qed.

(** X14.  [parseDC] on a distinguished name.  If the lower-cased name is the
    comma-separated list of some components, none of them holding a comma,
    the result is the dot-separated list of the components, each without
    its leading [dc=]; a component [dc=label] gives [label], and a
    component that does not start with [dc=] is kept as it is. *)
Theorem parseDC_components (w : World) (input : string) (parts : list string) :
  parts ≠ [] → forallb noComma parts = true →
  ToLower w input = Join parts "," →
  parseDC w input = Join (map (λ part, TrimPrefix part "dc=") parts) "." ∧
  (∀ label, TrimPrefix ("dc=" +:+ label) "dc=" = label) ∧
  (∀ part, stripPrefix "dc=" part = None → TrimPrefix part "dc=" = part).
Proof.
  intros Hne Hall Hlower. split; [|split].
  - unfold parseDC. by rewrite Hlower, Split_Join.
  - apply TrimPrefix_dc.
  - intros part Hnone. unfold TrimPrefix. by rewrite Hnone.
Qed.

Lemma parseDC_components_witness :
  forallb noComma ["ou=people"; "dc=corp"; "dc=example"; "dc=com"] = true ∧
  ToLower demoWorld "ou=people,dc=corp,dc=example,dc=com"
    = Join ["ou=people"; "dc=corp"; "dc=example"; "dc=com"] "," ∧
  parseDC demoWorld "ou=people,dc=corp,dc=example,dc=com" = "ou=people.corp.example.com".
Proof.
  split; [reflexivity|]. split; [reflexivity|].
  apply (proj1 (parseDC_components demoWorld "ou=people,dc=corp,dc=example,dc=com"
                  ["ou=people"; "dc=corp"; "dc=example"; "dc=com"]
                  ltac:(discriminate) eq_refl eq_refl)).
Defined.

(** *** [getBaseNamingContext] *)

(** X15.  [getBaseNamingContext] remembers its answer.  When it returns no
    error, the name is not empty and is stored in the options, whose other
    fields are unchanged, and every later call on these options returns
    the same name without an error, whatever the server then answers.
    When it returns an error, the name is empty and the options are
    unchanged. *)
Theorem getBaseNamingContext_remembers (w : World) (opts : ldapSessionOptions)
    (conn : handle) :
  match getBaseNamingContext w opts conn with
  | (opts', (name, None)) =>
      name ≠ EmptyString ∧ opts' = set_baseDN name opts ∧
      ∀ w' conn', getBaseNamingContext w' opts' conn' = (opts', (name, None))
  | (opts', (name, Some _)) => name = EmptyString ∧ opts' = opts
  end.
Proof.
  unfold getBaseNamingContext.
  destruct (String.eqb (baseDN opts) EmptyString) eqn:Eb; simpl.
  - destruct (Search w conn _) as [res|err]; [|done].
    destruct (Entries res) as [|entry ?]; [done|].
    destruct (String.eqb (GetAttributeValue entry _) EmptyString) eqn:Ev; [done|].
    apply String.eqb_neq in Ev. split; [done|]. split; [done|].
    intros w' conn'. simpl. by rewrite (proj2 (String.eqb_neq _ _) Ev).
  - apply String.eqb_neq in Eb. split; [done|]. split; [by destruct opts|].
    intros w' conn'. by rewrite (proj2 (String.eqb_neq _ _) Eb).
Qed.

(** *** Connections *)

(** X16.  [IsLdap] and [CollectLdapMetadata] close what they open.  The
    effects of a call extend the trace, and the connections they close are
    exactly the connections their dials returned. *)
Theorem connections_are_closed (w : World) (host controller : string) (port : Z)
    (tr : list Event) :
  (∃ evs, snd (IsLdap w host port tr) = tr ++ evs ∧ closed evs = dialed w evs) ∧
  (∃ evs, snd (CollectLdapMetadata w host controller tr) = tr ++ evs
          ∧ closed evs = dialed w evs).
Proof.
  split.
  - unfold IsLdap, bind, dial, emit, ret.
    destruct (IsHostAllowed w host); simpl.
    + destruct (Dial w "tcp" (hostPort host port)) as [conn|err] eqn:Ed; simpl.
      * eexists. split; [by rewrite <- !app_assoc|]. simpl.
        unfold dialed. simpl. by rewrite Ed.
      * eexists. split; [done|]. unfold dialed. simpl. by rewrite Ed.
    + exists []. by rewrite app_nil_r.
  - unfold CollectLdapMetadata, newLdapSession, bind, dial, close, emit, ret.
    destruct (IsHostAllowed w host); simpl.
    + destruct (Dial w "tcp" (hostPort controller 389)) as [conn|err] eqn:Ed; simpl.
      * eexists. split; [by rewrite <- !app_assoc|]. simpl.
        unfold dialed. simpl. by rewrite Ed.
      * eexists. split; [done|]. unfold dialed. simpl. by rewrite Ed.
    + exists []. by rewrite app_nil_r.
Qed.

(** X17.  [CollectLdapMetadata] dials its controller unchecked.  Once the
    policy allows the domain, the call dials the controller on port 389,
    whether the policy allows the controller or not.  If the dial
    succeeds, the effects of the call are the dial, the start of the
    connection and its close, whatever the server answers; if it fails,
    the dial is the only effect and its error is returned with empty
    metadata. *)
Theorem CollectLdapMetadata_controller_unchecked (w : World)
    (domain controller : string) (tr : list Event) :
  IsHostAllowed w domain = true →
  match Dial w "tcp" (hostPort controller 389) with
  | inl conn =>
      snd (CollectLdapMetadata w domain controller tr)
      = tr ++ [EvDial "tcp" (hostPort controller 389); EvStart conn; EvClose conn]
  | inr err =>
      CollectLdapMetadata w domain controller tr
      = ((zeroLDAPMetadata, Some err), tr ++ [EvDial "tcp" (hostPort controller 389)])
  end.
Proof.
  intros Hallowed. unfold CollectLdapMetadata, newLdapSession, bind, dial, close, emit, ret.
  rewrite Hallowed. simpl.
  destruct (Dial w _ _); simpl; [|done]. by rewrite <- !app_assoc.
Qed.

Lemma CollectLdapMetadata_controller_unchecked_witness :
  IsHostAllowed demoWorld "corp.example" = true ∧
  IsHostAllowed demoWorld "169.254.169.254" = false ∧
  snd (CollectLdapMetadata demoWorld "corp.example" "169.254.169.254" [])
  = [] ++ [EvDial "tcp" (hostPort "169.254.169.254" 389); EvStart 1%nat; EvClose 1%nat].
Proof.
  split; [reflexivity|]. split; [reflexivity|].
  exact (CollectLdapMetadata_controller_unchecked demoWorld "corp.example"
           "169.254.169.254" [] eq_refl).
Defined.

(** X18.  [IsLdap] answers true exactly when the policy allows the host, the
    dial succeeds and the LDAP plugin reports a service on the connection;
    and then its error is nil. *)
Theorem IsLdap_true_iff (w : World) (host : string) (port : Z) (tr : list Event) :
  (fst (fst (IsLdap w host port tr)) = true ↔
     IsHostAllowed w host = true ∧
     ∃ conn service, Dial w "tcp" (hostPort host port) = inl conn ∧
                     plugin_Run w conn (10 * time.Second) host = inl (Some service)) ∧
  (fst (fst (IsLdap w host port tr)) = true → snd (fst (IsLdap w host port tr)) = None).
Proof.
  unfold IsLdap, bind, dial, emit, ret.
  destruct (IsHostAllowed w host); simpl.
  2:{ split; [|done]. split; [done|]. by intros [? _]. }
  destruct (Dial w "tcp" (hostPort host port)) as [conn|err]; simpl.
  2:{ split; [|done]. split; [done|]. by intros [_ (? & ? & ? & _)]. }
  destruct (plugin_Run w conn (10 * time.Second) host) as [[service|]|err] eqn:Er; simpl.
  - split; [|done]. split; [|done]. intros _. split; [done|]. eauto.
  - split; [|done]. split; [done|]. intros [_ (c & sv & [= <-] & Hr)]. congruence.
  - split; [|done]. split; [done|]. intros [_ (c & sv & [= <-] & Hr)]. congruence.
Qed.



(** [CollectLdapMetadata] binds anonymously: its result and its effects
    do not depend on what an authenticated [Bind] would return. *)
Lemma CollectLdapMetadata_never_authenticates
    (allowed : string → bool) (dial : string → string → handle + error)
    (run : handle → time.Duration → string → option handle + error)
    (unauthenticated : handle → string → option error)
    (bind1 bind2 : handle → string → string → option error)
    (search : handle → list string → SearchResult + error) (lower : string → string)
    (domain controller : string) (tr : list Event) :
  CollectLdapMetadata (mkWorld allowed dial run unauthenticated bind1 search lower)
    domain controller tr
  = CollectLdapMetadata (mkWorld allowed dial run unauthenticated bind2 search lower)
      domain controller tr.
Proof. reflexivity. Qed.

End ldap_more.

(** ** The SDK engine, continued *)
Module vulmap_more.
Import vulmap vulmap_facts vulmap_sdk.

(** *** [processUpdateCheckResults] *)

(** X20.  The update check runs once.  Whatever it returns the first time,
    [processUpdateCheckResults] leaves the engine as it is and the
    [sync.Once] done; every later call, on any engine, returns nil without
    any effect. *)
Theorem update_check_runs_once (w : World) (e : VulmapEngine) (g : Globals) :
  ∃ r g1,
    processUpdateCheckResults w (e, g) = (Return r, (e, g1)) ∧
    updateCheckDone g1 = true ∧
    (updateCheckDone g = true → r = None ∧ g1 = g) ∧
    ∀ w' e', processUpdateCheckResults w' (e', g1) = (Return None, (e', g1)).
Proof.
  unfold processUpdateCheckResults, bind, once, this, emit, ret, return_. simpl.
  destruct g as [done tr]. destruct done; simpl.
  - exists None, (mkGlobals true tr). repeat split; done.
  - destruct (onUpdateAvailableCallback e); simpl; eexists _, _;
      (split; [done|]); simpl; (split; [done|]); (split; [done|]); done.
Qed.

(** *** [init] *)

Ltac frame_side :=
  unfold frame in *; simpl in *; intros;
  repeat match goal with
         | H : _ ∧ _ |- _ => destruct H
         | H : ∃ _, _ |- _ => destruct H
         end;
  simplify_eq/=; split_and?;
  first [ done
        | congruence
        | match goal with
          | H : trace _ = _ |- ∃ _, _ = _ =>
              rewrite H; eexists; rewrite <- ?app_assoc; reflexivity
          end
        | eauto ].

Lemma frame_refl e g : frame e g (e, g).
Proof.
  unfold frame. simpl. split_and?; try done.
  exists []. by rewrite app_nil_r.
Qed.

Lemma init_keeps_frame w e g :
  triple True (frame e g) (init w) (λ _, frame e g) (λ _, frame e g).
Proof.
  unfold init, applyRequiredDefaults, processUpdateCheckResults.
  stmt (frame e g) frame_side.
Qed.

(** X21.  What [init] never touches.  Whatever [init] returns, it has left
    the engine's mode, its result, failure and update callbacks, the stats
    switch and the browser as they were; it has only added to the effects
    performed; and a [sync.Once] that was done is still done. *)
Theorem init_frame (w : World) (e : VulmapEngine) (g : Globals) :
  frame e g (snd (init w (e, g))).
Proof.
  pose proof (init_keeps_frame w e g (e, g) (frame_refl e g)) as H.
  destruct (init_returns w e g) as (r & e' & g' & E). rewrite E in *. exact H.
Qed.

Lemma triple_pure {A} (T φ : Prop) (P : St → Prop) (m : I A) Q R :
  (∀ st, P st → φ) → (φ → triple T P m Q R) → triple T P m Q R.
Proof. intros H1 H2 st HP. apply H2; eauto. Qed.

Ltac defaults_side :=
  unfold suppliedOf, defaultsOf in *; simpl in *; intros;
  repeat match goal with
         | H : _ ∧ _ |- _ => destruct H
         end;
  simplify_eq/=; split_and?;
  first [ done | congruence | eauto ].

Lemma applyRequiredDefaults_defaults w e R :
  triple True (suppliedOf e) (applyRequiredDefaults w)
    (λ _ st, defaultsOf e st ∧ enableStats (fst st) = enableStats e) R.
Proof.
  intros [e0 g0] (Hw & Hp & Hc & Hl & Hf & Hs).
  destruct e0. simpl in *. subst.
  match goal with io : option interactsh.Options |- _ => destruct io end;
    unfold applyRequiredDefaults, bind, this, when, assign, emit, ret, defaultsOf; simpl;
    destruct (customWriter e), (customProgress e), (hostErrCache e), (rateLimiter e);
    simpl; done.
Qed.

Lemma init_defaults w e :
  triple True (suppliedOf e) (init w) (λ _ _, False) (λ r st, r = None → defaultsOf e st).
Proof.
  unfold init.
  steps (suppliedOf e) defaults_side.
  step (λ (_ : unit) (st : St), defaultsOf e st ∧ enableStats (fst st) = enableStats e).
  { apply applyRequiredDefaults_defaults. }
  intros _. unfold processUpdateCheckResults.
  apply triple_this. intros e1.
  step (λ (_ : unit) (st : St), defaultsOf e st).
  { apply triple_when.
    - intros Hb.
      apply (triple_pure _ (enableStats e = true)); [intros [? ?]; defaults_side|].
      intros He. stmt (defaultsOf e) defaults_side.
    - intros _ [? ?]. defaults_side. }
  intros _. stmt (defaultsOf e) defaults_side.
Qed.

(** X22.  What an engine holds after a successful [init].  A writer, a rate
    limiter and a host error cache that were supplied are kept, and so is a
    supplied progress client unless statistics are enabled; where one was
    missing, [init] has installed the mock writer with the engine's failure
    callback, a limiter of 150 per second, the default cache, the mock
    progress client.  The input provider is a fresh empty one, whatever
    the engine held. *)
Theorem init_installs_defaults (w : World) (e e' : VulmapEngine) (g g' : Globals) :
  init w (e, g) = (Return None, (e', g')) →
  defaultsOf e (e', g').
Proof.
  intros Hinit.
  assert (Hs : suppliedOf e (e, g)) by (unfold suppliedOf; simpl; done).
  pose proof (init_defaults w e (e, g) Hs) as H.
  rewrite Hinit in H. by apply H.
Qed.

Lemma init_installs_defaults_witness :
  fst (demoInit 0 0) = Return None ∧
  defaultsOf (demoEngine 0 0) (fst (snd (demoInit 0 0)), snd (snd (demoInit 0 0))).
Proof.
  split; [vm_compute; reflexivity|].
  apply (init_installs_defaults (demoWorld ["cve-2021-0001"]) (demoEngine 0 0)
           (fst (snd (demoInit 0 0))) demoGlobals (snd (snd (demoInit 0 0)))).
  vm_compute. reflexivity.
Defined.

Ltac built_side :=
  unfold engineBuilt, executorOf in *; simpl in *; intros;
  repeat match goal with
         | H : _ ∧ _ |- _ => destruct H
         end;
  simplify_eq/=; split_and?;
  first [ done | congruence | eauto ].

Lemma init_builds_engine w x0 :
  triple True (λ st, engine (fst st) = None ∧ executerOpts (fst st) = x0) (init w)
    (λ _, engineBuilt) (λ _, engineBuilt).
Proof.
  unfold init, applyRequiredDefaults, processUpdateCheckResults.
  steps (λ st : St, engine (fst st) = None ∧ executerOpts (fst st) = x0) built_side.
  step (λ (_ : unit) (st : St),
          engine (fst st) = None ∧ executorOf (fst st) (executerOpts (fst st))).
  { apply triple_assign. intros e' g' [[He _] <-]. simpl. split; [done|].
    unfold executorOf. simpl. done. }
  intros _.
  step (λ (_ : unit) (st : St),
          engine (fst st) = None ∧ executorOf (fst st) (executerOpts (fst st))).
  { intros [e' g'] [[He Hx] <-]. simpl in *.
    destruct (0 <? types.RateLimitMinute (opts e')); [|destruct (0 <? types.RateLimit (opts e'))];
      simpl; (split; [done|]); unfold executorOf in *; simpl; done. }
  intros _.
  step (λ (_ : unit) (st : St), engineBuilt st).
  { apply triple_assign. intros e' g' [[He Hx] <-]. unfold engineBuilt. simpl.
    intros ce [= <-]. simpl. split; [|done]. unfold executorOf in *. simpl. done. }
  intros _.
  stmt engineBuilt
       ltac:(unfold engineBuilt, executorOf in *; simpl in *; intros; destruct_and?;
             simplify_eq/=; eauto).
Qed.

(** X23.  The executor options that [init] builds.  Whenever [init] has built
    the core engine, that engine holds the engine's options and the
    executor options stored in the engine, and these carry the engine's own
    writer, options, progress client, catalog, issues client, interactsh
    client, host error cache and browser, and no workflow loader. *)
Theorem init_executor_options (w : World) (e e' : VulmapEngine) (g g' : Globals)
    (r : option error) (ce : core.Engine) :
  engine e = None →
  init w (e, g) = (Return r, (e', g')) →
  engine e' = Some ce →
  executorOf e' (executerOpts e') ∧
  core.executerOpts ce = Some (executerOpts e') ∧
  core.options ce = opts e'.
Proof.
  intros He Hinit Hce.
  pose proof (init_builds_engine w (executerOpts e) (e, g) (conj He eq_refl)) as H.
  rewrite Hinit in H. by apply H.
Qed.

Lemma init_executor_options_witness :
  engine (demoEngine 0 0) = None ∧
  executorOf (fst (snd (demoInit 0 0))) (executerOpts (fst (snd (demoInit 0 0)))).
Proof.
  split; [reflexivity|].
  refine (proj1 (init_executor_options (demoWorld ["cve-2021-0001"]) (demoEngine 0 0)
                   (fst (snd (demoInit 0 0))) demoGlobals (snd (snd (demoInit 0 0))) None
                   (core.SetExecuterOptions (executerOpts (fst (snd (demoInit 0 0))))
                      (core.New (opts (fst (snd (demoInit 0 0))))))
                   eq_refl _ _)); vm_compute; reflexivity.
Defined.

Ltac once_side :=
  unfold onceInv in *; simpl in *; intros; destruct_and?; simplify_eq/=;
  rewrite ?count_snoc; simpl; rewrite ?Nat.add_0_r; split_and?; eauto.

Lemma processUpdateCheckResults_once w :
  triple True (λ st, onceInv (snd st)) (processUpdateCheckResults w)
    (λ _ st, onceInv (snd st)) (λ _ st, onceInv (snd st)).
Proof.
  intros [e [done tr]] [H1 H2]. simpl in *.
  unfold processUpdateCheckResults, bind, once, this, emit, ret, return_. simpl.
  destruct done; simpl; [by split|].
  specialize (H2 eq_refl).
  destruct (onUpdateAvailableCallback e); simpl; unfold onceInv; simpl;
    rewrite ?count_snoc; simpl; rewrite H2; simpl; split; (lia || done).
Qed.

Lemma init_once w :
  triple True (λ st, onceInv (snd st)) (init w)
    (λ _ st, onceInv (snd st)) (λ _ st, onceInv (snd st)).
Proof.
  unfold init, applyRequiredDefaults.
  steps (λ st : St, onceInv (snd st)) once_side.
  apply processUpdateCheckResults_once.
Qed.

Lemma initAll_once runs : ∀ g, onceInv g → onceInv (initAll runs g).
Proof.
  induction runs as [|[w e] runs IH]; intros g Hg; simpl; [done|].
  apply IH. pose proof (init_once w (e, g) Hg) as H.
  destruct (init_returns w e g) as (r & e' & g' & E). rewrite E in *. exact H.
Qed.

(** X24.  The template update runs at most once per process.  However many
    engines are initialised one after the other, in whatever worlds and
    with whatever results, [UpdateIfOutdated] is called at most once. *)
Theorem update_once_per_process (runs : list (World * VulmapEngine)) :
  (count isUpdateIfOutdated (trace (initAll runs demoGlobals)) ≤ 1)%nat.
Proof.
  apply (initAll_once runs demoGlobals). unfold onceInv, count. simpl. split; [lia|done].
Qed.

(** *** [ExecuteVulmapWithOpts] and [NewThreadSafeVulmapEngine] *)

(** X25.  The outcome of [ExecuteVulmapWithOpts].  The call always returns;
    it leaves the base engine and the [sync.Once] as they were.  It
    returns nil exactly when it has loaded the store, started one scan with
    the store's templates (never its workflows) on the targets given, with
    clustering enabled, and waited for the work pool; when it returns an
    error its only effect, if any, is the load of the store. *)
Theorem ExecuteVulmapWithOpts_outcome (w : World) (targets : list string)
    (options : list VulmapSDKOptions) (eng : VulmapEngine) (g : Globals) :
  ∃ r g',
    ExecuteVulmapWithOpts w targets options (eng, g) = (Return r, (eng, g')) ∧
    updateCheckDone g' = updateCheckDone g ∧
    ((∃ err, r = Some err ∧
        (trace g' = trace g ∨ ∃ store, trace g' = trace g ++ [EvStoreLoad store])) ∨
     (r = None ∧
        ∃ store, trace g' = trace g ++
          [EvStoreLoad store;
           EvExecuteScan (store_Templates w store) (loadTargets w targets) false;
           EvWorkPoolWait])).
Proof.
  unfold ExecuteVulmapWithOpts, loadTargets, bind, this, return_, emit, check, ret. simpl.
  destruct (applyOptions _ _) as [tmpEngine|err]; simpl;
    [|eexists _, _; split; [done|]; split; [done|]; left; eauto].
  destruct (parsers_NewLoader _ _) as [workflowLoader|err]; simpl;
    [|eexists _, _; split; [done|]; split; [done|]; left; eauto].
  destruct (loader_New _ _ _ _) as [store|err]; simpl;
    [|eexists _, _; split; [done|]; split; [done|]; left; eauto].
  destruct ((length (store_Templates w store) =? 0)%nat
            && (length (store_Workflows w store) =? 0)%nat); simpl;
    [eexists _, _; split; [done|]; split; [done|]; left; eauto|].
  destruct (inputs_Count w _ =? 0); simpl;
    [eexists _, _; split; [done|]; split; [done|]; left; eauto|].
  eexists _, _. split; [done|]. split; [done|]. right. split; [done|].
  exists store. by rewrite <- !app_assoc.
Qed.

Lemma applyOptions_app a b e :
  applyOptions (a ++ b) e
  = match applyOptions a e with
    | inl e1 => applyOptions b e1
    | inr err => inr err
    end.
Proof.
  revert e. induction a as [|o a IH]; intros e; simpl; [done|].
  destruct (o e) as [e1 [err|]]; [done|]. apply IH.
Qed.

Lemma applyOptions_succeed before e :
  Forall succeeds before → ∃ e1, applyOptions before e = inl e1.
Proof.
  intros H. revert e. induction H as [|o before Ho _ IH]; intros e; simpl; [eauto|].
  specialize (Ho e). destruct (o e) as [e1 [err|]]; simpl in Ho; [done|]. apply IH.
Qed.

(** X26.  The first failing option decides.  When an option fails after
    options that succeed, the options behind it are not applied and its
    error is the result: [ExecuteVulmapWithOpts] returns it without any
    effect, and [NewThreadSafeVulmapEngine] returns it and no engine,
    without running [init]. *)
Theorem first_failing_option_decides (w : World) (targets : list string)
    (defaultOptions : types.Options) (before after : list VulmapSDKOptions)
    (failing : VulmapSDKOptions) (err : error) (eng : VulmapEngine) (g : Globals) :
  Forall succeeds before →
  (∀ e, snd (failing e) = Some err) →
  (∀ e, applyOptions (before ++ failing :: after) e = inr err) ∧
  ExecuteVulmapWithOpts w targets (before ++ failing :: after) (eng, g)
    = (Return (Some err), (eng, g)) ∧
  NewThreadSafeVulmapEngine w defaultOptions (before ++ failing :: after) g
    = Some ((None, Some err), g).
Proof.
  intros Hb Hf.
  assert (H : ∀ e, applyOptions (before ++ failing :: after) e = inr err).
  { intros e. rewrite applyOptions_app.
    destruct (applyOptions_succeed before e Hb) as [e1 ->]. simpl.
    specialize (Hf e1). destruct (failing e1) as [x [err'|]]; simpl in Hf; congruence. }
  split; [exact H|]. split.
  - unfold ExecuteVulmapWithOpts, bind, this. simpl. by rewrite H.
  - unfold NewThreadSafeVulmapEngine. by rewrite H.
Qed.

Lemma first_failing_option_decides_witness :
  ExecuteVulmapWithOpts (demoWorld ["cve-2021-0001"]) ["https://example.com"]
    ([withExcludeTags ["intrusive"]] ++ failingOption :: [withExcludeTags ["dos"]])
    (demoEngine 0 0, demoGlobals)
  = (Return (Some (Err "option is not thread safe")), (demoEngine 0 0, demoGlobals)).
Proof.
  refine (proj1 (proj2 (first_failing_option_decides (demoWorld ["cve-2021-0001"])
           ["https://example.com"] (demoOptions 0 0)
           [withExcludeTags ["intrusive"]] [withExcludeTags ["dos"]] failingOption
           (Err "option is not thread safe") (demoEngine 0 0) demoGlobals _ _))).
  - repeat constructor.
  - intros e. reflexivity.
Defined.

(** X27.  What [NewThreadSafeVulmapEngine] returns.  It never panics, and it
    returns an engine exactly when it returns no error.  The engine it
    returns excludes the tags of the ignore file, whatever the options
    set, and has an empty input provider; creating it has started no
    scan. *)
Theorem NewThreadSafeVulmapEngine_result (w : World) (defaultOptions : types.Options)
    (options : list VulmapSDKOptions) (g : Globals) :
  ∃ engine err g',
    NewThreadSafeVulmapEngine w defaultOptions options g = Some ((engine, err), g') ∧
    (err = None ↔ is_Some engine) ∧
    count isExecuteScan (trace g') = count isExecuteScan (trace g) ∧
    ∀ e', engine = Some e' →
      types.ExcludeTags (opts e') = config.Tags (ReadIgnoreFile w) ∧
      inputProvider e' = Some (inputs.mkSimpleInputProvider []).
Proof.
  unfold NewThreadSafeVulmapEngine.
  destruct (applyOptions options _) as [e|err].
  2:{ eexists _, _, _. split; [done|]. split; [|split; [done|done]].
      split; [done|]. by intros [? ?]. }
  pose proof (init_ignore_file w _ (e, g) eq_refl) as H1.
  pose proof (init_no_scan w _ (e, g) eq_refl) as H2.
  assert (Hs : suppliedOf e (e, g)) by (unfold suppliedOf; simpl; done).
  pose proof (init_defaults w e (e, g) Hs) as H3.
  destruct (init_returns w e g) as (r & e' & g' & E). rewrite E in *. simpl in *.
  destruct r as [err|].
  - eexists _, _, _. split; [done|]. split; [|split; [done|done]].
    split; [done|]. by intros [? ?].
  - eexists _, _, _. split; [done|]. split; [|split; [done|]].
    + split; [eauto|done].
    + intros ? [= <-]. destruct (H1 eq_refl) as [Ht _].
      destruct (H3 eq_refl) as (_ & _ & _ & Hi & _). done.
Qed.

(** The exclude-tags that an option sets do not survive the constructor. *)
Example NewThreadSafeVulmapEngine_demo :
  ∃ e' g',
    NewThreadSafeVulmapEngine (demoWorld ["cve-2021-0001"]) (demoOptions 0 0)
      [withExcludeTags ["intrusive"]] demoGlobals = Some ((Some e', None), g') ∧
    types.ExcludeTags (opts e') = ["dos"; "fuzz"].
Proof. eexists _, _. split; vm_compute; reflexivity. Qed.

(** *** The result callbacks *)

Lemma WriteCallback_calls cbs event :
  flat_map (λ callback : option handle,
              match callback with
              | Some callback => [Call callback event]
              | None => []
              end) cbs
  = (λ callback, Call callback event) <$> omap id cbs.
Proof.
  induction cbs as [|[cb|] cbs IH]; simpl; [done| |done]. by rewrite IH.
Qed.

(** X28.  What the mock writer does with a result.  With no result callback
    registered it prints one line; with callbacks registered it prints
    nothing and calls the callbacks that are not nil, in the order of
    registration.  After [GlobalResultCallback] the result goes to that
    callback alone, and to nobody, not even the printer, if that callback
    is nil. *)
Theorem WriteCallback_outputs (e : VulmapEngine) (event : ResultEvent) :
  (resultCallbacks e = [] → ∃ line, WriteCallback e event = [Println line]) ∧
  (resultCallbacks e ≠ [] →
     WriteCallback e event
     = (λ callback, Call callback event) <$> omap id (resultCallbacks e)) ∧
  ∀ callback,
    WriteCallback (GlobalResultCallback callback e) event
    = match callback with
      | Some callback => [Call callback event]
      | None => []
      end.
Proof.
  split; [|split].
  - intros H. unfold WriteCallback. rewrite H. simpl. eauto.
  - intros H. unfold WriteCallback.
    destruct (resultCallbacks e) as [|cb cbs] eqn:E; [done|].
    change (0 <? length (cb :: cbs))%nat with true. cbv iota.
    apply WriteCallback_calls.
  - intros [cb|]; reflexivity.
Qed.

End vulmap_more.
